(** * rul_pm.results.results: life segmentation, fitted lives and
      cross-validation aggregation

    A shallow embedding of [src/rul_pm/results/results.py].

    Numbers.  The arrays of the module hold IEEE doubles.  They are modelled
    as exact rationals ([Q]) extended with [NaN], the one special value the
    module tests for ([np.isnan]); rounding and the infinities are left out.
    A comparison with [NaN] is false, arithmetic on [NaN] gives [NaN].

    Arrays.  The module squeezes every array it receives.  On a one
    dimensional array [np.squeeze] is the identity except for a one-element
    array, which it turns into a zero dimensional one; [ndarray] keeps the
    two shapes apart, since [len], slicing and [np.diff] raise on the
    latter.

    Exceptions.  A Python function that may raise returns a [result]. *)

From Stdlib Require Import String.
From Stdlib Require Import List Bool Arith ZArith QArith Qabs Qminmax Lia Lqa.
Import Corelib.Init.Datatypes.
Import ListNotations.

Local Open Scope nat_scope.

(** ** Exceptions and the error monad *)

Inductive exn : Type :=
| ValueError
| IndexError
| TypeError
| FloatingPointError.

Inductive result (A : Type) : Type :=
| Ok (a : A)
| Raise (e : exn).

Arguments Ok {A} a.
Arguments Raise {A} e.

Definition bind {A B : Type} (c : result A) (k : A -> result B) : result B :=
  match c with
  | Ok a => k a
  | Raise e => Raise e
  end.

Declare Scope result_scope.
Delimit Scope result_scope with result.
Notation "x <- c ;; k" := (bind c (fun x => k))
  (at level 61, c at next level, right associativity) : result_scope.
Notation "' pat <- c ;; k" := (bind c (fun x => match x with pat => k end))
  (at level 61, pat pattern, c at next level, right associativity) : result_scope.
Local Open Scope result_scope.

(** [for x in xs: acc = body(acc, x)], stopping at the first exception. *)
Fixpoint foldM {A S : Type} (body : S -> A -> result S) (s : S) (xs : list A)
  : result S :=
  match xs with
  | [] => Ok s
  | x :: xs' => s' <- body s x ;; foldM body s' xs'
  end.

(** A list comprehension [[f(x) for x in xs]] whose body may raise. *)
Fixpoint mapM {A B : Type} (f : A -> result B) (xs : list A) : result (list B) :=
  match xs with
  | [] => Ok []
  | x :: xs' => y <- f x ;; ys <- mapM f xs' ;; Ok (y :: ys)
  end.

(** ** Numbers *)

Inductive num : Type :=
| NaN
| Fin (q : Q).

Definition lift2 (f : Q -> Q -> Q) (a b : num) : num :=
  match a, b with
  | Fin x, Fin y => Fin (f x y)
  | _, _ => NaN
  end.

Definition nadd : num -> num -> num := lift2 Qplus.
Definition nsub : num -> num -> num := lift2 Qminus.
Definition nmul : num -> num -> num := lift2 Qmult.

Definition nabs (a : num) : num :=
  match a with
  | Fin x => Fin (Qabs x)
  | NaN => NaN
  end.

(** [a / b].  The model has no infinities, so a zero divisor is reported:
    numpy raises [FloatingPointError] there under
    [np.errstate(divide='raise', invalid='raise')] and otherwise warns and
    stores [inf] or [nan]. *)
Definition ndiv (a b : num) : result num :=
  match b with
  | NaN => Ok NaN
  | Fin y =>
      if Qeq_bool y 0 then Raise FloatingPointError
      else match a with
           | NaN => Ok NaN
           | Fin x => Ok (Fin (x / y))
           end
  end.

Definition cmp2 (f : Q -> Q -> bool) (a b : num) : bool :=
  match a, b with
  | Fin x, Fin y => f x y
  | _, _ => false
  end.

Definition Qlt_bool (x y : Q) : bool := negb (Qle_bool y x).

Definition nltb : num -> num -> bool := cmp2 Qlt_bool.
Definition nleb : num -> num -> bool := cmp2 Qle_bool.
Definition ngtb (a b : num) : bool := nltb b a.
Definition ngeb (a b : num) : bool := nleb b a.
Definition neqb : num -> num -> bool := cmp2 Qeq_bool.

Definition isnan (a : num) : bool :=
  match a with
  | NaN => true
  | Fin _ => false
  end.

Definition num_of_bool (b : bool) : num := if b then Fin 1 else Fin 0.
Definition num_of_nat (n : nat) : num := Fin (inject_Z (Z.of_nat n)).
Definition num_of_Z (z : Z) : num := Fin (inject_Z z).

(** The literal [0.0000000001]. *)
Definition eps : num := Fin (1 # 10000000000).

(** ** numpy arrays of dimension zero and one *)

Inductive ndarray : Type :=
| Arr0 (x : num)
| Arr1 (l : list num).

(** [np.squeeze]: every axis of length one is removed. *)
Definition squeeze (a : ndarray) : ndarray :=
  match a with
  | Arr1 [x] => Arr0 x
  | _ => a
  end.

(** [len(a)]: a zero dimensional array is unsized. *)
Definition len (a : ndarray) : result nat :=
  match a with
  | Arr0 _ => Raise TypeError
  | Arr1 l => Ok (length l)
  end.

(** [l[i]] for a non-negative index. *)
Definition getitem {A : Type} (l : list A) (i : nat) : result A :=
  match nth_error l i with
  | Some x => Ok x
  | None => Raise IndexError
  end.

(** [l[-1]]. *)
Definition getitem_last {A : Type} (l : list A) : result A :=
  getitem l (length l - 1).

(** [a[i]] on an array: a zero dimensional array takes no index. *)
Definition nd_getitem (a : ndarray) (i : nat) : result num :=
  match a with
  | Arr0 _ => Raise IndexError
  | Arr1 l => getitem l i
  end.

(** [a[lo:]]. *)
Definition nd_getslice_from (a : ndarray) (lo : nat) : result (list num) :=
  match a with
  | Arr0 _ => Raise IndexError
  | Arr1 l => Ok (skipn lo l)
  end.

(** [a[idx]] for a list of indices (integer array indexing). *)
Definition take (l : list num) (idx : list nat) : result (list num) :=
  mapM (getitem l) idx.

Definition nd_take (a : ndarray) (idx : list nat) : result (list num) :=
  match a with
  | Arr0 _ => Raise IndexError
  | Arr1 l => take l idx
  end.

(** [a[1:] - a[:-1]] *)
Fixpoint diff (l : list num) : list num :=
  match l with
  | x :: ((y :: _) as tl) => nsub y x :: diff tl
  | _ => []
  end.

(** [np.diff]: the input must have at least one dimension. *)
Definition np_diff (a : ndarray) : result (list num) :=
  match a with
  | Arr0 _ => Raise ValueError
  | Arr1 l => Ok (diff l)
  end.

(** [np.where(mask)[0]] on a one dimensional mask. *)
Fixpoint where_from (i : nat) (mask : list bool) : list nat :=
  match mask with
  | [] => []
  | b :: mask' =>
      if b then i :: where_from (S i) mask' else where_from (S i) mask'
  end.

Definition np_where (mask : list bool) : list nat := where_from 0 mask.

(** [np.where(mask)[0]] on an array that may be zero dimensional: numpy 1.x
    treats the zero dimensional mask as a one-element array (with a
    deprecation warning). *)
Definition nd_where (p : num -> bool) (a : ndarray) : list nat :=
  match a with
  | Arr0 x => np_where [p x]
  | Arr1 l => np_where (map p l)
  end.

Definition zeros (n : nat) : list num := repeat (Fin 0) n.

(** [a[lo:hi] = v] for a scalar [v]; the bounds are clipped to the array. *)
Definition setslice_scalar (a : list num) (lo hi : nat) (v : num) : list num :=
  let hi' := Nat.min hi (length a) in
  if hi' <=? lo then a
  else firstn lo a ++ repeat v (hi' - lo) ++ skipn hi' a.

(** [a[lo:] = v] for an array [v]: the shapes must agree, up to the
    broadcast of a one-element [v]. *)
Definition setslice_from (a : list num) (lo : nat) (v : list num)
  : result (list num) :=
  let k := length a - lo in
  if length v =? k then Ok (firstn lo a ++ v)
  else match v with
       | [x] => Ok (firstn lo a ++ repeat x k)
       | _ => Raise ValueError
       end.

(** [np.cumsum] *)
Fixpoint cumsum_from (acc : num) (l : list num) : list num :=
  match l with
  | [] => []
  | x :: l' => let s := nadd acc x in s :: cumsum_from s l'
  end.

Definition cumsum (l : list num) : list num :=
  match l with
  | [] => []
  | x :: l' => x :: cumsum_from x l'
  end.

Definition nsum (l : list num) : num := fold_left nadd l (Fin 0).

(** [np.mean]: [nan] (and a warning) on an empty array. *)
Definition mean (l : list num) : num :=
  match l with
  | [] => NaN
  | _ => lift2 Qdiv (nsum l) (num_of_nat (length l))
  end.

(** [np.max]: raises on an empty array, [nan] wins. *)
Definition nmax (a b : num) : num := lift2 Qmax a b.

Definition np_max (l : list num) : result num :=
  match l with
  | [] => Raise ValueError
  | x :: l' => Ok (fold_left nmax l' x)
  end.

(** Sorting of the finite values, for the median. *)
Fixpoint insert_sorted (x : Q) (l : list Q) : list Q :=
  match l with
  | [] => [x]
  | y :: l' => if Qle_bool x y then x :: l else y :: insert_sorted x l'
  end.

Definition sortQ (l : list Q) : list Q := fold_right insert_sorted [] l.

Fixpoint finite_values (l : list num) : option (list Q) :=
  match l with
  | [] => Some []
  | NaN :: _ => None
  | Fin q :: l' =>
      match finite_values l' with
      | Some qs => Some (q :: qs)
      | None => None
      end
  end.

(** [np.median]: the middle of the sorted values, the mean of the two middle
    ones for an even count; [nan] if there is a [nan] or no value at all. *)
Definition median (l : list num) : num :=
  match finite_values l with
  | None => NaN
  | Some qs =>
      let s := sortQ qs in
      let n := length s in
      if n =? 0 then NaN
      else if Nat.even n
           then Fin ((nth (n / 2 - 1) s 0 + nth (n / 2) s 0) / 2)%Q
           else Fin (nth (n / 2) s 0%Q)
  end.

(** [np.linspace(start, stop, num)] with the default [endpoint=True]:
    [start + i * step] for [step = (stop - start) / (num - 1)], the last
    sample set to [stop]. *)
Definition linspace (start stop : num) (n : nat) : list num :=
  match n with
  | 0 => []
  | 1 => [start]
  | S (S _ as n1) =>
      let step := lift2 Qdiv (nsub stop start) (num_of_nat n1) in
      map (fun i => nadd (nmul (num_of_nat i) step) start) (seq 0 n1) ++ [stop]
  end.

(** A call [np.linspace(start, stop, kw=n)] passing the sample count by
    keyword.  The third parameter of [np.linspace] is called [num]; another
    keyword is rejected before the body runs. *)
Definition linspace_kw (start stop : num) (kw : String.string) (n : nat)
  : result (list num) :=
  if String.eqb kw "num"%string then Ok (linspace start stop n) else Raise TypeError.

(** ** Python ranges *)

Record range : Type := mkrange { start : nat; stop : nat }.

(** [len(r)] *)
Definition range_len (r : range) : nat := stop r - start r.

(** The indices a range runs over. *)
Definition range_indices (r : range) : list nat := seq (start r) (range_len r).

(** ** Life segmentation *)

(** The loop of [split_lives_indices] over consecutive breakpoints. *)
Fixpoint lives_loop (lives_indices : list nat) : list range :=
  match lives_indices with
  | a :: ((b :: _) as rest) =>
      let r := mkrange (a + 1) b in
      if range_len r =? 0 then lives_loop rest else r :: lives_loop rest
  | _ => []
  end.

Definition split_lives_indices (y_true : list num) : result (list range) :=
  d <- np_diff (squeeze (Arr1 y_true)) ;;
  let lives_indices :=
    [0] ++ np_where (map (fun x => ngtb x (Fin 0)) d) ++ [length y_true] in
  Ok (lives_loop lives_indices).

(** ** The piecewise linear fitter

    [rul_pm.results.picewise_regression] is a collaborator of this module:
    a regression object is created with the [not_increasing] flag, fed the
    points one at a time and finished into a function.  Its algorithm plays
    no part here, so it is a parameter of the development; each of its
    operations may raise. *)

Class Fitter : Type := {
  PiecewesieLinearFunction : Type;
  PiecewiseLinearRegression : Type;
  pwlr_init : bool -> PiecewiseLinearRegression;
  add_point : PiecewiseLinearRegression -> num -> num ->
              result PiecewiseLinearRegression;
  finish : PiecewiseLinearRegression -> result PiecewesieLinearFunction
}.

(** ** Fitted lives *)

(** The [time] argument of the constructor, when it is not [None]. *)
Inductive time_arg : Type :=
| TimeArray (a : list num)
| TimeInt (t : Z).

Record FittedLife `{Fitter} : Type := mkFittedLife {
  fit_line_not_increasing : bool;
  degrading_start : nat;
  time : list num;
  y_pred_fitted : PiecewesieLinearFunction;
  y_true_fitted : PiecewesieLinearFunction;
  RUL_threshold : option num;
  y_pred : list num;
  y_true : list num
}.

Definition _degrading_start (y_true : ndarray) (RUL_threshold : option num)
  : nat :=
  match RUL_threshold with
  | None => 0
  | Some thr =>
      match nd_where (fun y => nltb y thr) y_true with
      | [] => 0
      | i :: _ => i
      end
  end.

Definition _compute_time (y_true : ndarray) (degrading_start : nat)
  : result (list num) :=
  tail <- nd_getslice_from (squeeze y_true) degrading_start ;;
  let time_diff := diff (rev tail) in
  n <- len y_true ;;
  let time := zeros n in
  let time :=
    if 0 <? degrading_start then
      if 0 <? length time_diff
      then setslice_scalar time 0 (degrading_start + 1) (median time_diff)
      else setslice_scalar time 0 (degrading_start + 1) (Fin 1)
    else time in
  time <- setslice_from time (degrading_start + 1) time_diff ;;
  Ok (cumsum time).

Definition compute_time_feature (y_true : ndarray) (RUL_threshold : option num)
  : result (nat * list num) :=
  let degrading_start := _degrading_start y_true RUL_threshold in
  time <- _compute_time y_true degrading_start ;;
  Ok (degrading_start, time).

(** A one dimensional view of an array that [len] has accepted. *)
Definition as_1d (a : ndarray) : result (list num) :=
  match a with
  | Arr0 _ => Raise TypeError
  | Arr1 l => Ok l
  end.

Section FittedLifeOps.
Context `{Fitter}.

Definition _fit_picewise_linear_regression
    (fit_line_not_increasing : bool) (time : list num) (y : ndarray)
  : result PiecewesieLinearFunction :=
  let pwlr := pwlr_init fit_line_not_increasing in
  n <- len y ;;
  pwlr <- foldM (fun pwlr j =>
                   t <- getitem time j ;;
                   v <- nd_getitem y j ;;
                   add_point pwlr t v)
                pwlr (seq 0 n) ;;
  finish pwlr.

(** [FittedLife.__init__].  The arrays stored at the end are those the two
    fits have run over, hence one dimensional. *)
Definition FittedLife_init (y_true y_pred : list num)
    (time : option time_arg) (fit_line_not_increasing : bool)
    (RUL_threshold : option num) : result FittedLife :=
  let y_true := squeeze (Arr1 y_true) in
  let y_pred := squeeze (Arr1 y_pred) in
  '(degrading_start, time) <-
    match time with
    | Some t =>
        let degrading_start := _degrading_start y_true RUL_threshold in
        match t with
        | TimeArray a => Ok (degrading_start, a)
        | TimeInt _ =>
            y0 <- nd_getitem y_true 0 ;;
            n <- len y_true ;;
            tm <- linspace_kw (Fin 0) y0 "n" n ;;
            Ok (degrading_start, tm)
        end
    | None => compute_time_feature y_true RUL_threshold
    end ;;
  y_pred_fitted <-
    _fit_picewise_linear_regression fit_line_not_increasing time y_pred ;;
  y_true_fitted <-
    _fit_picewise_linear_regression fit_line_not_increasing time y_true ;;
  yp <- as_1d y_pred ;;
  yt <- as_1d y_true ;;
  Ok {| fit_line_not_increasing := fit_line_not_increasing;
        degrading_start := degrading_start;
        time := time;
        y_pred_fitted := y_pred_fitted;
        y_true_fitted := y_true_fitted;
        RUL_threshold := RUL_threshold;
        y_pred := yp;
        y_true := yt |}.

Definition predicted_end_of_life (self : FittedLife) : result num :=
  let z := np_where (map (fun y => neqb y (Fin 0)) (y_pred self)) in
  if length z =? 0 then
    t <- getitem_last (time self) ;;
    y <- getitem_last (y_pred self) ;;
    Ok (nadd t y)
  else
    i <- getitem z 0 ;;
    getitem (time self) i.

Definition end_of_life (self : FittedLife) : result num :=
  let z := np_where (map (fun y => neqb y (Fin 0)) (y_true self)) in
  if length z =? 0 then
    t <- getitem_last (time self) ;;
    y <- getitem_last (y_true self) ;;
    Ok (nadd t y)
  else
    i <- getitem z 0 ;;
    getitem (time self) i.

Definition maintenance_point (self : FittedLife) (m : num) : result num :=
  p <- predicted_end_of_life self ;;
  Ok (nsub p m).

Definition unexploited_lifetime (self : FittedLife) (m : num) : result num :=
  mp <- maintenance_point self m ;;
  eol <- end_of_life self ;;
  if nltb mp eol then
    eol' <- end_of_life self ;;
    mp' <- maintenance_point self m ;;
    Ok (nsub eol' mp')
  else Ok (Fin 0).

Definition unexpected_break (self : FittedLife) (m : num) : result bool :=
  mp <- maintenance_point self m ;;
  eol <- end_of_life self ;;
  if nltb mp eol then Ok false else Ok true.

End FittedLifeOps.

(** ** Elementwise operations on one dimensional arrays *)

(** [a op b] for two arrays: equal shapes, or a one-element array broadcast
    against the other; anything else cannot be broadcast. *)
Definition broadcast2 (f : num -> num -> num) (a b : list num)
  : result (list num) :=
  if length a =? length b then Ok (map (fun p => f (fst p) (snd p)) (combine a b))
  else match a, b with
       | [x], _ => Ok (map (f x) b)
       | _, [y] => Ok (map (fun x => f x y) a)
       | _, _ => Raise ValueError
       end.

Definition vadd : list num -> list num -> result (list num) := broadcast2 nadd.
Definition vsub : list num -> list num -> result (list num) := broadcast2 nsub.

(** [a / d] and [a * q] for a scalar. *)
Definition vdiv_scalar (a : list num) (d : num) : result (list num) :=
  mapM (fun x => ndiv x d) a.

Definition vmul_scalar (a : list num) (q : num) : list num :=
  map (fun x => nmul x q) a.

(** ** Splitting predictions into fitted lives *)

(** One record of the results structure: [{'true': ..., 'predicted': ...}]. *)
Record fold_result : Type := mkfold {
  r_true : list num;
  r_predicted : list num
}.

(** The argument [d] of the top-level metrics.  They iterate over [d] and
    read ['true'] and ['predicted'] of each element, so [d] is meant to be
    the list of fold records of one model.  Iterating over the results
    dictionary itself (model name to fold records) yields its keys, the
    model names, and subscripting a string with ['true'] is a [TypeError]. *)
Inductive element : Type :=
| FoldRecord (r : fold_result)
| ModelName (name : string).

Inductive results : Type :=
| FoldList (folds : list fold_result)
| ResultsDict (model_names : list string).

(** [for cv in d] *)
Definition iterate (d : results) : list element :=
  match d with
  | FoldList folds => map FoldRecord folds
  | ResultsDict model_names => map ModelName model_names
  end.

Section Aggregation.
Context `{Fitter}.

(** The body of the loop of [split_lives] for the range [r]: [y_pred[r]] is
    inspected for [nan], then [y_true[r]] and [y_pred[r]] are passed to the
    constructor. *)
Definition split_lives_body (y_true y_pred : list num)
    (RUL_threshold : option num) (fit_line_not_increasing : bool)
    (time : option time_arg) (lives : list FittedLife) (r : range)
  : result (list FittedLife) :=
  yp <- take y_pred (range_indices r) ;;
  if existsb isnan yp then Ok lives
  else
    yt <- take y_true (range_indices r) ;;
    yp' <- take y_pred (range_indices r) ;;
    life <- FittedLife_init yt yp' time fit_line_not_increasing
              RUL_threshold ;;
    Ok (lives ++ [life]).

Definition split_lives (y_true y_pred : list num)
    (RUL_threshold : option num) (fit_line_not_increasing : bool)
    (time : option time_arg) : result (list FittedLife) :=
  ranges <- split_lives_indices y_true ;;
  foldM (split_lives_body y_true y_pred RUL_threshold fit_line_not_increasing
           time)
        [] ranges.

Definition split_lives_from_results (d : element)
  : result (list FittedLife) :=
  match d with
  | ModelName _ => Raise TypeError
  | FoldRecord d =>
      let y_true := r_true d in
      let y_pred := r_predicted d in
      split_lives y_true y_pred None false None
  end.

(** ** Maintenance metrics over a fault-horizon sweep *)

(** The body of the loop over folds, for one horizon [m].  The standard
    deviation the source also computes is never used and is left out. *)
Definition J_of_fold (q1 q2 m : num) (r : list FittedLife) : result num :=
  ub_cv_list <- mapM (fun life => unexpected_break life m) r ;;
  let ub_cv_list := map num_of_bool ub_cv_list in
  ub_max <- np_max ub_cv_list ;;
  ub_cv_list <- vdiv_scalar ub_cv_list (nadd ub_max eps) ;;
  let ub_cv_list := vmul_scalar ub_cv_list q1 in
  ul_cv_list <- mapM (fun life => unexploited_lifetime life m) r ;;
  ul_max <- np_max ul_cv_list ;;
  ul_cv_list <- vdiv_scalar ul_cv_list (nadd ul_max eps) ;;
  let ul_cv_list := vmul_scalar ul_cv_list q2 in
  values <- vadd ub_cv_list ul_cv_list ;;
  Ok (mean values).

Definition metric_J_from_cv (lives : list (list FittedLife))
    (window_size : Z) (n : nat) (q1 q2 : num)
  : result (list num * list num) :=
  let windows := linspace (Fin 0) (num_of_Z window_size) n in
  J <- foldM (fun J m =>
                J_of_m <- foldM (fun J_of_m r =>
                                   mean_J <- J_of_fold q1 q2 m r ;;
                                   Ok (J_of_m ++ [mean_J]))
                                [] lives ;;
                Ok (J ++ [mean J_of_m]))
             [] windows ;;
  Ok (windows, J).

(** A call of [metric_J_from_cv] with three leading positional arguments
    and [rest] after them.  None of its five parameters has a default, so
    any other count of arguments is a [TypeError] raised before the body
    runs. *)
Definition call_metric_J_from_cv (lives : list (list FittedLife))
    (window_size : Z) (n : nat) (rest : list num)
  : result (list num * list num) :=
  match rest with
  | [q1; q2] => metric_J_from_cv lives window_size n q1 q2
  | _ => Raise TypeError
  end.

Definition metric_J (d : results) (window_size : Z) (step : nat)
  : result (list num * list num) :=
  lives_cv <- mapM split_lives_from_results (iterate d) ;;
  call_metric_J_from_cv lives_cv window_size step [].

End Aggregation.

(** ** Binned errors over cross-validation folds *)

Record CVResults : Type := mkCVResults {
  n_folds : nat;
  n_bins : nat;
  bin_edges : list num;
  mean_error : list (list num);
  mae : list (list num);
  mse : list (list num);
  errors : list (list num)
}.

(** [np.zeros((rows, cols))] *)
Definition zeros2 (rows cols : nat) : list (list num) :=
  repeat (zeros cols) rows.

Fixpoint list_set {A : Type} (l : list A) (i : nat) (v : A) : option (list A) :=
  match l, i with
  | [], _ => None
  | _ :: l', 0 => Some (v :: l')
  | x :: l', S i' =>
      match list_set l' i' v with
      | Some l'' => Some (x :: l'')
      | None => None
      end
  end.

(** [a[i, j] = v] *)
Definition mat_set (a : list (list num)) (i j : nat) (v : num)
  : result (list (list num)) :=
  match nth_error a i with
  | None => Raise IndexError
  | Some row =>
      match list_set row j v with
      | None => Raise IndexError
      | Some row' =>
          match list_set a i row' with
          | Some a' => Ok a'
          | None => Raise IndexError
          end
      end
  end.

(** The mask [(y >= lo) & (y <= hi)]. *)
Definition in_bin (lo hi y : num) : bool := ngeb y lo && nleb y hi.

(** The body of the loop of [_add_fold_result] for bin [j]. *)
Definition add_bin (fold : nat) (y_pred y_true : ndarray)
    (self : CVResults) (j : nat) : result CVResults :=
  lo <- getitem (bin_edges self) j ;;
  hi <- getitem (bin_edges self) (j + 1) ;;
  let indices := nd_where (in_bin lo hi) y_true in
  if length indices =? 0 then Ok self
  else
    yt <- nd_take y_true indices ;;
    yp <- nd_take y_pred indices ;;
    errs <- vsub yt yp ;;
    mean_error' <- mat_set (mean_error self) fold j (mean errs) ;;
    mae' <- mat_set (mae self) fold j (mean (map nabs errs)) ;;
    mse' <- mat_set (mse self) fold j (mean (map (fun e => nmul e e) errs)) ;;
    Ok {| n_folds := n_folds self;
          n_bins := n_bins self;
          bin_edges := bin_edges self;
          mean_error := mean_error';
          mae := mae';
          mse := mse';
          errors := errors self ++ [errs] |}.

Definition _add_fold_result (self : CVResults) (fold : nat)
    (y_pred y_true : list num) : result CVResults :=
  let y_pred := squeeze (Arr1 y_pred) in
  let y_true := squeeze (Arr1 y_true) in
  foldM (add_bin fold y_pred y_true) self (seq 0 (length (bin_edges self) - 1)).

(** [enumerate(zip(a, b))] *)
Definition enumerate {A : Type} (l : list A) : list (nat * A) :=
  combine (seq 0 (length l)) l.

Definition CVResults_init (y_true y_pred : list (list num)) (nbins : nat)
    (bin_edges : option (list num)) : result CVResults :=
  bin_edges <-
    match bin_edges with
    | None =>
        maxima <- mapM np_max y_true ;;
        max_value <- np_max maxima ;;
        Ok (linspace (Fin 0) max_value (nbins + 1))
    | Some e => Ok e
    end ;;
  let n_folds := length y_true in
  match bin_edges with
  | [] => Raise ValueError
  | _ :: _ =>
      let n_bins := length bin_edges - 1 in
      let self := {| n_folds := n_folds;
                     n_bins := n_bins;
                     bin_edges := bin_edges;
                     mean_error := zeros2 n_folds n_bins;
                     mae := zeros2 n_folds n_bins;
                     mse := zeros2 n_folds n_bins;
                     errors := [] |} in
      foldM (fun self iy =>
               let '(i, (y_pred, y_true)) := iy in
               _add_fold_result self i y_pred y_true)
            self (enumerate (combine y_pred y_true))
  end.

(** ** Sample weights and the error of a life *)

(** What [compute_sample_weight] returns: the integer [1], or one weight per
    sample. *)
Inductive weights : Type :=
| UniformWeight
| SampleWeights (w : list num).

(** The pairs [a op b] runs over: equal shapes, or a one-element array
    broadcast against the other. *)
Definition broadcast_pairs (a b : list num) : result (list (num * num)) :=
  if length a =? length b then Ok (combine a b)
  else match a, b with
       | [x], _ => Ok (map (fun y => (x, y)) b)
       | _, [y] => Ok (map (fun x => (x, y)) a)
       | _, _ => Raise ValueError
       end.

(** [a / b] for two arrays. *)
Definition vdiv (a b : list num) : result (list num) :=
  ps <- broadcast_pairs a b ;;
  mapM (fun p => ndiv (fst p) (snd p)) ps.

(** [np.clip(y, c, np.inf)] *)
Definition clip_below (c : num) (y : list num) : list num :=
  map (fun v => nmax v c) y.

(** The default [c = 0.9]. *)
Definition default_c : num := Fin (9 # 10).

Definition compute_sample_weight (sample_weight : option string)
    (y_true y_pred : list num) (c : num) : result weights :=
  match sample_weight with
  | Some name =>
      if String.eqb name "relative" then
        e <- vsub y_true y_pred ;;
        w <- vdiv (map nabs e) (clip_below c y_true) ;;
        Ok (SampleWeights w)
      else Ok UniformWeight
  | None => Ok UniformWeight
  end.

(** [sw * a] *)
Definition weighted (sw : weights) (a : list num) : result (list num) :=
  match sw with
  | UniformWeight => Ok (map (nmul (Fin 1)) a)
  | SampleWeights w => broadcast2 nmul w a
  end.

(** Python's [max(a, b)]: [b] only if it is greater. *)
Definition pymax (a b : num) : num := if ngtb b a then b else a.

(** The literal [0.0000000000001]. *)
Definition tiny : num := Fin (1 # 10000000000000).

(** [compute_rul_line]: [rul] falling along the steps (the argument [tt] of
    the source, [-1] each by default), never below zero.  The loop stops at
    the first value under [1e-13]. *)

Fixpoint rul_line_loop (steps z : list num) (indices : list nat)
  : result (list num) :=
  match indices with
  | [] => Ok z
  | i :: rest =>
      zi <- getitem z i ;;
      ti <- getitem steps i ;;
      let v := pymax (nadd zi ti) (Fin 0) in
      match list_set z (i + 1) v with
      | None => Raise IndexError
      | Some z' =>
          if nltb (nsub v (Fin 0)) tiny then Ok z'
          else rul_line_loop steps z' rest
      end
  end.

Definition compute_rul_line (rul : num) (n : nat) (steps : option (list num))
  : result (list num) :=
  let steps := match steps with
               | None => repeat (Fin (-1)) n
               | Some a => a
               end in
  let z := zeros n in
  match list_set z 0 rul with
  | None => Raise IndexError
  | Some z => rul_line_loop steps z (seq 0 (length steps - 1))
  end.

(** The results dictionary: model name to fold records, in insertion order;
    the names are the keys of a dictionary, hence distinct. *)
Definition results_dictionary : Type := list (string * list fold_result).

(** [models_cv_results]: one [CVResults] per model, on bin edges shared by
    all models. *)
Definition models_cv_results (results_dict : results_dictionary) (nbins : nat)
  : result (list num * list (string * CVResults)) :=
  maxima <- mapM (fun r => np_max (r_true r))
                 (flat_map snd results_dict) ;;
  max_y_value <- np_max maxima ;;
  let bin_edges := linspace (Fin 0) max_y_value (nbins + 1) in
  model_results <-
    mapM (fun entry =>
            let trues := map r_true (snd entry) in
            let predicted := map r_predicted (snd entry) in
            cv <- CVResults_init trues predicted nbins (Some bin_edges) ;;
            Ok (fst entry, cv))
         results_dict ;;
  Ok (bin_edges, model_results).

(** [transform_results] rewrites the fold records of the dictionary in
    place.  The records are objects: the heap maps the identity of a record
    to its current content, and the dictionary holds, for each model, the
    identities of its fold records, so that a record listed twice (twice in
    one list, or under two models that share a list or a record) is one
    object, rewritten at each visit.  The transformation is a function of
    the array it receives and returns the rewritten array. *)
Definition heap : Type := nat -> fold_result.

(** [result[key] = v]: the record of identity [a] gets a new content. *)
Definition heap_set (h : heap) (a : nat) (r : fold_result) : heap :=
  fun b => if b =? a then r else h b.

Definition results_refs : Type := list (string * list nat).

(** The inner loop, [for result in results_dict[model_name]]. *)
Fixpoint transform_records (transformation : list num -> result (list num))
    (records : list nat) (h : heap) : heap * result unit :=
  match records with
  | [] => (h, Ok tt)
  | a :: rest =>
      match transformation (r_true (h a)) with
      | Raise e => (h, Raise e)
      | Ok t =>
          let h := heap_set h a (mkfold t (r_predicted (h a))) in
          match transformation (r_predicted (h a)) with
          | Raise e => (h, Raise e)
          | Ok p =>
              let h := heap_set h a (mkfold (r_true (h a)) p) in
              transform_records transformation rest h
          end
      end
  end.

(** The heap as the call leaves it, and its outcome. *)
Fixpoint transform_results (results_dict : results_refs)
    (transformation : list num -> result (list num)) (h : heap)
  : heap * result unit :=
  match results_dict with
  | [] => (h, Ok tt)
  | (model_name, records) :: rest =>
      match transform_records transformation records h with
      | (h, Raise e) => (h, Raise e)
      | (h, Ok _) => transform_results rest transformation h
      end
  end.

Section MoreAggregation.
Context `{Fitter}.

(** [FittedLife.mae] *)
Definition FittedLife_mae (self : FittedLife) (sample_weight : option string)
  : result num :=
  sw <- compute_sample_weight sample_weight (y_true self) (y_pred self)
          default_c ;;
  e <- vsub (y_true self) (y_pred self) ;;
  prod <- weighted sw (map nabs e) ;;
  Ok (mean prod).

(** The sweep shared by [unexploited_lifetime_from_cv] and
    [unexpected_breaks_from_cv]: at each horizon the mean over the folds of
    the fold mean of [metric].  The standard deviation the source also
    computes is never used and is left out. *)
Definition sweep_from_cv (metric : FittedLife -> num -> result num)
    (lives : list (list FittedLife)) (window_size : Z) (n : nat)
  : result (list num * list num) :=
  let windows := linspace (Fin 0) (num_of_Z window_size) n in
  qq <- foldM (fun qq m =>
                 jj <- foldM (fun jj r =>
                                ul_cv_list <- mapM (fun life => metric life m) r ;;
                                Ok (jj ++ [mean ul_cv_list]))
                             [] lives ;;
                 Ok (qq ++ [mean jj]))
              [] windows ;;
  Ok (windows, qq).

Definition unexploited_lifetime_from_cv (lives : list (list FittedLife))
    (window_size : Z) (n : nat) : result (list num * list num) :=
  sweep_from_cv unexploited_lifetime lives window_size n.

Definition unexpected_breaks_from_cv (lives : list (list FittedLife))
    (window_size : Z) (n : nat) : result (list num * list num) :=
  sweep_from_cv
    (fun life m => b <- unexpected_break life m ;; Ok (num_of_bool b))
    lives window_size n.

(** The module-level [unexploited_lifetime(d, window_size, step)]; the name
    is taken by the method of [FittedLife]. *)
Definition results_unexploited_lifetime (d : results) (window_size : Z)
    (step : nat) : result (list num * list num) :=
  bb <- mapM split_lives_from_results (iterate d) ;;
  unexploited_lifetime_from_cv bb window_size step.

Definition unexpected_breaks (d : results) (window_size : Z) (step : nat)
  : result (list num * list num) :=
  bb <- mapM split_lives_from_results (iterate d) ;;
  unexpected_breaks_from_cv bb window_size step.

End MoreAggregation.

(** ** A fitter that accepts every point

    Used to run the model on concrete inputs. *)

Definition trivial_fitter : Fitter :=
  {| PiecewesieLinearFunction := unit;
     PiecewiseLinearRegression := unit;
     pwlr_init := fun _ => tt;
     add_point := fun _ _ _ => Ok tt;
     finish := fun _ => Ok tt |}.

(** ** The specification's reading of the operations *)

(** Integer samples, for examples. *)
Definition Z2n (z : Z) : num := Fin (inject_Z z).
Definition ints (l : list Z) : list num := map Z2n l.

(** Life boundaries: the positions [i] with [y[i+1] - y[i] > 0]. *)
Definition boundaries (y : list num) : list nat :=
  filter (fun i => ngtb (nsub (nth (S i) y NaN) (nth i y NaN)) (Fin 0))
         (seq 0 (length y - 1)).

(** Breakpoints: the boundaries, prefixed with [0] and suffixed with the
    length. *)
Definition breakpoints (y : list num) : list nat :=
  0 :: boundaries y ++ [length y].

(** Pairs of consecutive elements. *)
Definition consecutive {A : Type} (l : list A) : list (A * A) :=
  combine l (tl l).

(** For each consecutive pair [(a, b)] the range [(a+1, b)], the empty ones
    skipped. *)
Definition life_ranges (y : list num) : list range :=
  filter (fun r => negb (range_len r =? 0))
         (map (fun ab => mkrange (fst ab + 1) (snd ab))
              (consecutive (breakpoints y))).

(** The time axis without threshold: the cumulative sum of [0] followed by
    the first difference of the reversed sequence. *)
Definition reversed_time_axis (y : list num) : list num :=
  cumsum (Fin 0 :: diff (rev y)).

(** The value the censored prefix is filled with. *)
Definition prefix_step (time_diff : list num) : num :=
  match time_diff with
  | [] => Fin 1
  | _ => median time_diff
  end.

(** The step sequence before the cumulative sum: positions [0] to
    [degrading_start] hold the prefix step when [degrading_start > 0] (a zero
    at position [0] otherwise), the reversed differences follow. *)
Definition time_steps (y : list num) (degrading_start : nat) : list num :=
  let time_diff := diff (rev (skipn degrading_start y)) in
  (if 0 <? degrading_start
   then repeat (prefix_step time_diff)
               (Nat.min (degrading_start + 1) (length y))
   else firstn (degrading_start + 1) (zeros (length y)))
  ++ time_diff.

(** The common body of [end_of_life] and [predicted_end_of_life], for the
    sequence [y]. *)
Definition zero_crossing (time y : list num) : result num :=
  let z := np_where (map (fun v => neqb v (Fin 0)) y) in
  if length z =? 0 then
    t <- getitem_last time ;;
    v <- getitem_last y ;;
    Ok (nadd t v)
  else
    i <- getitem z 0 ;;
    getitem time i.

(** The invariant of a life: it has at least one sample, and a time stamp
    for each sample of either sequence. *)
Definition life_inv `{Fitter} (self : FittedLife) : Prop :=
  y_true self <> []
  /\ y_pred self <> []
  /\ length (y_true self) <= length (time self)
  /\ length (y_pred self) <= length (time self).

Definition example_life : @FittedLife trivial_fitter :=
  @mkFittedLife trivial_fitter false 0 (ints [0; 1]%Z) tt tt None
    (ints [1; 0]%Z) (ints [1; 0]%Z).

(** Whether the predicted slice of a range holds a [nan]. *)
Definition has_nan (y_pred : list num) (r : range) : bool :=
  match take y_pred (range_indices r) with
  | Ok yp => existsb isnan yp
  | Raise _ => false
  end.

(** [life] is the fitted life of the range [r]: the constructor applied to
    the two slices, the predicted one free of [nan]. *)
Definition built_from `{Fitter} (y_true y_pred : list num)
    (thr : option num) (flag : bool) (tm : option time_arg)
    (r : range) (life : FittedLife) : Prop :=
  exists yt yp,
    take y_true (range_indices r) = Ok yt
    /\ take y_pred (range_indices r) = Ok yp
    /\ existsb isnan yp = false
    /\ FittedLife_init yt yp tm flag thr = Ok life.

(** The value of [zero_crossing] on a non-empty sequence. *)
Definition zero_crossing_value (time y : list num) : num :=
  match np_where (map (fun v => neqb v (Fin 0)) y) with
  | [] => nadd (last time NaN) (last y NaN)
  | i :: _ => nth i time NaN
  end.

Section MetricValues.
Context `{Fitter}.

Definition eol_value (self : FittedLife) : num :=
  zero_crossing_value (time self) (y_true self).

Definition peol_value (self : FittedLife) : num :=
  zero_crossing_value (time self) (y_pred self).

(** No break as long as the maintenance point is before the end of life. *)
Definition break_value (self : FittedLife) (m : num) : bool :=
  negb (nltb (nsub (peol_value self) m) (eol_value self)).

Definition unexploited_value (self : FittedLife) (m : num) : num :=
  if nltb (nsub (peol_value self) m) (eol_value self)
  then nsub (eol_value self) (nsub (peol_value self) m)
  else Fin 0.

(** The values of a fold divided by (their maximum + 1e-10). *)
Definition normalised (v : list num) : list num :=
  match v with
  | [] => []
  | x :: v' =>
      let d := nadd (fold_left nmax v' x) eps in
      map (fun a => lift2 Qdiv a d) v
  end.

(** The cost of one fold at horizon [m]: the mean of the scaled, normalised
    breaks plus the scaled, normalised unexploited lifetimes. *)
Definition fold_cost (q1 q2 m : num) (r : list FittedLife) : num :=
  let ub := map (fun life => num_of_bool (break_value life m)) r in
  let ul := map (fun life => unexploited_value life m) r in
  mean (map (fun p => nadd (fst p) (snd p))
            (combine (vmul_scalar (normalised ub) q1)
                     (vmul_scalar (normalised ul) q2))).

(** The combined cost at horizon [m]: the average of the fold costs. *)
Definition combined_cost (q1 q2 : num) (lives : list (list FittedLife))
    (m : num) : num :=
  mean (map (fold_cost q1 q2 m) lives).

End MetricValues.

(** The samples of a fold that bin [j] collects: those whose true value
    lies between edge [j] and edge [j+1], both included. *)
Definition bin_samples (edges y_true : list num) (j : nat) : list nat :=
  filter (fun k => in_bin (nth j edges NaN) (nth (j + 1) edges NaN)
                          (nth k y_true NaN))
         (seq 0 (length y_true)).

(** Their errors, [true - predicted]. *)
Definition bin_errors (edges y_true y_pred : list num) (j : nat) : list num :=
  map (fun k => nsub (nth k y_true NaN) (nth k y_pred NaN))
      (bin_samples edges y_true j).

(** [a[i, j]] *)
Definition entry (a : list (list num)) (i j : nat) : option num :=
  match nth_error a i with
  | Some row => nth_error row j
  | None => None
  end.

Definition is_empty {A : Type} (l : list A) : bool :=
  match l with
  | [] => true
  | _ :: _ => false
  end.


(** The three statistics stored for a bin. *)
Definition stats_at (self : CVResults) (i j : nat)
  : option num * option num * option num :=
  (entry (mean_error self) i j, entry (mae self) i j, entry (mse self) i j).

Definition bin_stats (errs : list num)
  : option num * option num * option num :=
  (Some (mean errs),
   Some (mean (map nabs errs)),
   Some (mean (map (fun e => nmul e e) errs))).

(** The error arrays one fold appends: those of its non-empty bins. *)
Definition fold_errors (edges : list num) (nb : nat)
    (fold : list num * list num) : list (list num) :=
  filter (fun e => negb (is_empty e))
         (map (bin_errors edges (snd fold) (fst fold)) (seq 0 nb)).

Definition example_folds_true : list (list num) :=
  [ints [0; 1; 2; 3; 4]%Z; ints [4; 4]%Z].

Definition example_folds_pred : list (list num) :=
  [ints [1; 1; 1; 1; 1]%Z; ints [0; 1]%Z].

(** The sequence of the specification's example: two lives, the first cut
    down to one sample. *)
Definition example_signal : list num := ints [3; 2; 1; 5; 4; 3; 2; 1]%Z.

(** The shape of a matrix, and of the three matrices of a [CVResults]. *)
Definition dims (rows cols : nat) (a : list (list num)) : Prop :=
  length a = rows /\ Forall (fun r => length r = cols) a.

Definition cv_shape (self : CVResults) : Prop :=
  dims (n_folds self) (n_bins self) (mean_error self)
  /\ dims (n_folds self) (n_bins self) (mae self)
  /\ dims (n_folds self) (n_bins self) (mse self)
  /\ n_bins self = length (bin_edges self) - 1.

(** Lists of indices in ascending order. *)
Fixpoint ascending (l : list nat) : Prop :=
  match l with
  | [] => True
  | x :: l' => Forall (le x) l' /\ ascending l'
  end.

(** Numbers that are finite and not negative. *)
Definition nonneg (a : num) : Prop := exists q, a = Fin q /\ (0 <= q)%Q.

(** A sequence of finite samples. *)
Definition samples (qs : list Q) : list num := map Fin qs.

(** A finite number within bounds. *)
Definition between (lo hi : Q) (a : num) : Prop :=
  exists q, a = Fin q /\ (lo <= q <= hi)%Q.

Section SweepValues.
Context `{Fitter}.

(** The value of a sweep at horizon [m]: the mean over the folds of the fold
    means of [value]. *)
Definition sweep_value (value : FittedLife -> num -> num)
    (lives : list (list FittedLife)) (m : num) : num :=
  mean (map (fun r => mean (map (fun life => value life m) r)) lives).

End SweepValues.

(** A results dictionary of two models, one fold each. *)
Definition example_results : results_dictionary :=
  [("a"%string, [mkfold (ints [0; 1; 2; 3; 4]%Z) (ints [1; 1; 1; 1; 1]%Z)]);
   ("b"%string, [mkfold (ints [4; 8]%Z) (ints [0; 1]%Z)])].

(** The records [transform_results] visits, in order: model by model, with
    repetitions. *)
Definition visits (rd : results_refs) : list nat := flat_map snd rd.

(** The arrays of a sequence of records: for each one its true values, then
    its predictions. *)
Definition arrays (h : heap) (records : list nat) : list (list num) :=
  flat_map (fun a => [r_true (h a); r_predicted (h a)]) records.

(** [transformation] applied [k] times in a row. *)
Fixpoint iterate_result (transformation : list num -> result (list num))
    (k : nat) (x : list num) : result (list num) :=
  match k with
  | 0 => Ok x
  | S k' => y <- transformation x ;; iterate_result transformation k' y
  end.

(** A heap of three records; the first two hold the folds of the example
    dictionary. *)
Definition example_heap : heap :=
  fun a =>
    match a with
    | 0 => mkfold (ints [0; 1; 2; 3; 4]%Z) (ints [1; 1; 1; 1; 1]%Z)
    | 1 => mkfold (ints [4; 8]%Z) (ints [0; 1]%Z)
    | _ => mkfold [] []
    end.

(** * Properties *)

(** ** The error monad *)

Lemma bind_Ok {A B : Type} (c : result A) (k : A -> result B) (b : B) :
  bind c k = Ok b -> exists a, c = Ok a /\ k a = Ok b.
Proof.
  destruct c as [a|e]; simpl; intros Hk; [exists a; auto | discriminate].
Qed.

Lemma foldM_app {A S : Type} (body : S -> A -> result S) (xs ys : list A) (s : S) :
  foldM body s (xs ++ ys) = (s' <- foldM body s xs ;; foldM body s' ys).
Proof.
  revert s; induction xs as [|x xs IH]; intros s; simpl; [reflexivity|].
  destruct (body s x) as [s'|e]; simpl; [apply IH | reflexivity].
Qed.

Lemma mapM_length {A B : Type} (f : A -> result B) (xs : list A) (ys : list B) :
  mapM f xs = Ok ys -> length ys = length xs.
Proof.
  revert ys; induction xs as [|x xs IH]; intros ys; simpl.
  - intros [= <-]; reflexivity.
  - destruct (f x) as [y|e]; simpl; [|discriminate].
    destruct (mapM f xs) as [ys'|e]; simpl; [|discriminate].
    intros [= <-]; simpl; f_equal; apply IH; reflexivity.
Qed.

Lemma mapM_total {A B : Type} (f : A -> result B) (g : A -> B) (xs : list A) :
  (forall x, In x xs -> f x = Ok (g x)) -> mapM f xs = Ok (map g xs).
Proof.
  induction xs as [|x xs IH]; intros Hf; simpl; [reflexivity|].
  rewrite (Hf x (or_introl eq_refl)); simpl.
  rewrite IH by (intros y Hy; apply Hf; right; exact Hy).
  reflexivity.
Qed.

(** ** Arrays *)

Lemma squeeze_1d (l : list num) : length l <> 1 -> squeeze (Arr1 l) = Arr1 l.
Proof.
  destruct l as [|x [|y l]]; simpl; intros Hl; try reflexivity.
  exfalso; apply Hl; reflexivity.
Qed.

Lemma diff_length (l : list num) : length (diff l) = length l - 1.
Proof.
  induction l as [|x [|y l] IH]; try reflexivity.
  change (diff (x :: y :: l)) with (nsub y x :: diff (y :: l)).
  simpl length in *. rewrite IH. lia.
Qed.

Lemma where_from_filter (p : nat -> bool) (n i : nat) :
  where_from i (map p (seq i n)) = filter p (seq i n).
Proof.
  revert i; induction n as [|n IH]; intros i; simpl; [reflexivity|].
  rewrite IH. reflexivity.
Qed.

Lemma diff_nth (l : list num) (i : nat) :
  i < length l - 1 ->
  nth i (diff l) NaN = nsub (nth (S i) l NaN) (nth i l NaN).
Proof.
  revert i; induction l as [|x [|y l] IH]; intros i Hi; simpl in Hi; try lia.
  change (diff (x :: y :: l)) with (nsub y x :: diff (y :: l)).
  destruct i as [|i]; [reflexivity|].
  change (nth (S i) (nsub y x :: diff (y :: l)) NaN)
    with (nth i (diff (y :: l)) NaN).
  rewrite IH by (simpl; lia). reflexivity.
Qed.

Lemma map_nth_seq {A : Type} (l : list A) (d : A) :
  map (fun i => nth i l d) (seq 0 (length l)) = l.
Proof.
  induction l as [|x l IH]; simpl; [reflexivity|].
  f_equal. rewrite <- seq_shift, map_map. exact IH.
Qed.

Lemma where_from_bounds (mask : list bool) (i k : nat) :
  In k (where_from i mask) -> i <= k < i + length mask.
Proof.
  revert i; induction mask as [|b mask IH]; intros i; simpl; [tauto|].
  destruct b; simpl; intros Hk.
  - destruct Hk as [<-|Hk]; [lia|]. apply IH in Hk. lia.
  - apply IH in Hk. lia.
Qed.

Lemma np_where_lt (mask : list bool) (k : nat) :
  In k (np_where mask) -> k < length mask.
Proof. intros Hk. apply where_from_bounds in Hk. lia. Qed.

(** ** Life segmentation *)

Lemma np_where_diff (p : num -> bool) (y : list num) :
  np_where (map p (diff y)) =
  filter (fun i => p (nsub (nth (S i) y NaN) (nth i y NaN)))
         (seq 0 (length y - 1)).
Proof.
  unfold np_where.
  rewrite <- (map_nth_seq (diff y) NaN) at 1.
  rewrite map_map, diff_length, where_from_filter.
  apply filter_ext_in. intros i Hi. apply in_seq in Hi.
  rewrite diff_nth by lia. reflexivity.
Qed.

Lemma lives_loop_consecutive (l : list nat) :
  lives_loop l =
  filter (fun r => negb (range_len r =? 0))
         (map (fun ab => mkrange (fst ab + 1) (snd ab)) (consecutive l)).
Proof.
  induction l as [|a [|b l] IH]; try reflexivity.
  change (lives_loop (a :: b :: l))
    with (if range_len (mkrange (a + 1) b) =? 0 then lives_loop (b :: l)
          else mkrange (a + 1) b :: lives_loop (b :: l)).
  rewrite IH. unfold consecutive. simpl.
  destruct (range_len (mkrange (a + 1) b) =? 0); reflexivity.
Qed.

(** On every sequence that [np.squeeze] leaves one dimensional the function
    returns the ranges of the specification. *)
Lemma split_lives_indices_ranges (y_true : list num) :
  length y_true <> 1 ->
  split_lives_indices y_true = Ok (life_ranges y_true).
Proof.
  intros Hlen. unfold split_lives_indices.
  rewrite squeeze_1d by exact Hlen. unfold np_diff, bind.
  rewrite lives_loop_consecutive, np_where_diff. reflexivity.
Qed.

Example split_lives_indices_example :
  split_lives_indices (ints [3; 2; 1; 5; 4; 3; 2; 1]%Z)
  = Ok [mkrange 1 2; mkrange 3 8]
  /\ map range_indices [mkrange 1 2; mkrange 3 8] = [[1]; [3; 4; 5; 6; 7]].
Proof. split; reflexivity. Qed.

(** C1 (defect).  A sequence of one sample should give no life at all
    (breakpoints [0] and [1], one empty range); [np.squeeze] turns it into a
    zero dimensional array, on which [np.diff] raises [ValueError]. *)
Theorem split_lives_indices_single_sample (y : num) :
  split_lives_indices [y] = Raise ValueError
  /\ life_ranges [y] = [].
Proof. split; reflexivity. Qed.

(** ** The boundary samples are dropped *)

Lemma ascending_filter_seq (p : nat -> bool) (a n : nat) :
  ascending (filter p (seq a n)).
Proof.
  revert a; induction n as [|n IH]; intros a; simpl; [exact I|].
  destruct (p a); [|apply IH]. split; [|apply IH].
  apply Forall_forall. intros k Hk. apply filter_In in Hk.
  destruct Hk as (Hk & _). apply in_seq in Hk. lia.
Qed.

Lemma ascending_snoc (l : list nat) (n : nat) :
  ascending l -> Forall (fun x => x <= n) l -> ascending (l ++ [n]).
Proof.
  induction l as [|x l IH]; intros Hasc Hle; simpl; [split; [constructor | exact I]|].
  destruct Hasc as (Hx & Hasc). inversion Hle as [|? ? Hxn Hle']; subst.
  split; [|apply IH; assumption].
  apply Forall_app. split; [exact Hx | constructor; [exact Hxn | constructor]].
Qed.

Lemma boundaries_lt (y : list num) (b : nat) :
  In b (boundaries y) -> b < length y - 1.
Proof.
  unfold boundaries. intros Hb. apply filter_In in Hb.
  destruct Hb as (Hb & _). apply in_seq in Hb. lia.
Qed.

Lemma breakpoints_ascending (y : list num) : ascending (breakpoints y).
Proof.
  unfold breakpoints. split.
  - apply Forall_forall. intros k _. lia.
  - apply ascending_snoc; [apply ascending_filter_seq|].
    apply Forall_forall. intros b Hb. apply boundaries_lt in Hb. lia.
Qed.

Lemma breakpoints_le (y : list num) (b : nat) :
  In b (breakpoints y) -> b <= length y.
Proof.
  unfold breakpoints. intros [<-|Hb]; [lia|].
  apply in_app_or in Hb. destruct Hb as [Hb|[<-|[]]]; [|lia].
  apply boundaries_lt in Hb. lia.
Qed.

(** Nothing lies strictly between two consecutive elements of an ascending
    list. *)
Lemma consecutive_gap (l : list nat) (a b k : nat) :
  ascending l -> In (a, b) (consecutive l) -> a < k < b -> ~ In k l.
Proof.
  induction l as [|x [|z l] IH]; intros Hasc Hab Hk; try (destruct Hab; fail).
  destruct Hasc as (Hx & Hasc).
  change (consecutive (x :: z :: l)) with ((x, z) :: consecutive (z :: l)) in Hab.
  destruct Hab as [[= -> ->]|Hab].
  - intros [->|Hin]; [lia|].
    destruct Hasc as (Hz & _).
    destruct Hin as [->|Hin]; [lia|].
    pose proof (proj1 (Forall_forall _ _) Hz k Hin). lia.
  - intros [->|Hin]; [|exact (IH Hasc Hab Hk Hin)].
    unfold consecutive in Hab. apply in_combine_l in Hab.
    pose proof (proj1 (Forall_forall _ _) Hx a Hab). lia.
Qed.

(** No index of a life is a breakpoint: neither sample [0] nor the sample
    at a boundary belongs to a life, and every index is within the
    sequence. *)
Lemma life_ranges_skip_breakpoints (y : list num) (r : range) (k : nat) :
  In r (life_ranges y) -> In k (range_indices r) ->
  k <> 0 /\ ~ In k (boundaries y) /\ k < length y.
Proof.
  unfold life_ranges. intros Hr Hk. apply filter_In in Hr.
  destruct Hr as (Hr & _). apply in_map_iff in Hr.
  destruct Hr as ((a & b) & <- & Hab).
  unfold range_indices, range_len in Hk. cbn [start stop fst snd] in Hk.
  apply in_seq in Hk.
  assert (Hgap : a < k < b) by lia.
  pose proof (consecutive_gap _ a b k (breakpoints_ascending y) Hab Hgap) as Hout.
  assert (Hb : b <= length y).
  { apply breakpoints_le. unfold consecutive in Hab.
    apply in_combine_r in Hab. destruct (breakpoints y); [destruct Hab|].
    right. exact Hab. }
  repeat split.
  - lia.
  - intros Hin. apply Hout. unfold breakpoints. right.
    apply in_or_app. left. exact Hin.
  - lia.
Qed.

(** ** Time reconstruction *)

Lemma setslice_from_exact (a v : list num) (lo : nat) :
  length v = length a - lo ->
  setslice_from a lo v = Ok (firstn lo a ++ v).
Proof.
  intros Hv. unfold setslice_from. rewrite Hv, Nat.eqb_refl. reflexivity.
Qed.

Lemma zeros_length (n : nat) : length (zeros n) = n.
Proof. apply repeat_length. Qed.

Lemma setslice_scalar_length (a : list num) (lo hi : nat) (v : num) :
  length (setslice_scalar a lo hi v) = length a.
Proof.
  unfold setslice_scalar.
  destruct (Nat.leb_spec (Nat.min hi (length a)) lo) as [Hle|Hlt]; [reflexivity|].
  rewrite !length_app, repeat_length, length_firstn, length_skipn. lia.
Qed.

Lemma firstn_setslice_scalar (a : list num) (hi : nat) (v : num) :
  firstn hi (setslice_scalar a 0 hi v) = repeat v (Nat.min hi (length a)).
Proof.
  unfold setslice_scalar.
  destruct (Nat.leb_spec (Nat.min hi (length a)) 0) as [Hle|Hlt].
  - assert (Hz : Nat.min hi (length a) = 0) by lia. rewrite Hz. simpl.
    destruct hi as [|hi]; [reflexivity|].
    destruct a as [|x a]; [reflexivity | simpl in Hz; lia].
  - simpl firstn at 2. rewrite Nat.sub_0_r. simpl app.
    rewrite firstn_app, repeat_length.
    destruct (Nat.le_ge_cases hi (length a)) as [Hhi|Hhi].
    + rewrite Nat.min_l by exact Hhi. rewrite Nat.sub_diag. simpl.
      rewrite app_nil_r. apply firstn_all2. rewrite repeat_length. lia.
    + rewrite Nat.min_r by exact Hhi.
      rewrite skipn_all2 by lia. rewrite firstn_nil, app_nil_r.
      apply firstn_all2. rewrite repeat_length. exact Hhi.
Qed.

(** The step sequence of a one dimensional life, and its cumulative sum. *)
Lemma _compute_time_1d (l : list num) (ds : nat) :
  length l <> 1 ->
  _compute_time (Arr1 l) ds = Ok (cumsum (time_steps l ds)).
Proof.
  intros Hlen. unfold _compute_time.
  rewrite squeeze_1d by exact Hlen. unfold nd_getslice_from, len, bind.
  set (td := diff (rev (skipn ds l))).
  assert (Htd : length td = length l - (ds + 1)).
  { unfold td. rewrite diff_length, length_rev, length_skipn. lia. }
  unfold time_steps. fold td.
  destruct (Nat.ltb_spec 0 ds) as [Hds|Hds].
  - assert (Hfill : forall v,
      setslice_from (setslice_scalar (zeros (length l)) 0 (ds + 1) v) (ds + 1) td
      = Ok (repeat v (Nat.min (ds + 1) (length l)) ++ td)).
    { intros v. rewrite setslice_from_exact
        by (rewrite setslice_scalar_length, zeros_length; exact Htd).
      rewrite firstn_setslice_scalar, zeros_length. reflexivity. }
    unfold prefix_step.
    destruct td as [|d td'] eqn:Etd.
    + cbn [length Nat.ltb Nat.leb]. rewrite Hfill. reflexivity.
    + cbn [length Nat.ltb Nat.leb]. rewrite Hfill. reflexivity.
  - rewrite setslice_from_exact by (rewrite zeros_length; exact Htd).
    reflexivity.
Qed.

(** Without a threshold the censored prefix is empty and the time axis is the
    cumulative sum of [0] followed by the reversed differences. *)
Lemma compute_time_feature_no_threshold (l : list num) :
  2 <= length l ->
  compute_time_feature (Arr1 l) None = Ok (0, reversed_time_axis l).
Proof.
  intros Hlen. unfold compute_time_feature, _degrading_start.
  rewrite _compute_time_1d by lia. unfold bind, time_steps, reversed_time_axis.
  simpl Nat.ltb. cbv iota. rewrite Nat.add_0_l.
  destruct l as [|x l]; [simpl in Hlen; lia|]. reflexivity.
Qed.

Lemma compute_time_feature_empty :
  compute_time_feature (Arr1 []) None = Ok (0, []).
Proof. reflexivity. Qed.

(** With a threshold that some sample undercuts, positions [0] to
    [degrading_start] of the step sequence hold the median of the reversed
    differences, or [1] when there is none. *)
Lemma compute_time_feature_censored (l : list num) (thr : num) (ds : nat)
    (time : list num) :
  compute_time_feature (Arr1 l) (Some thr) = Ok (ds, time) ->
  0 < ds ->
  let time_diff := diff (rev (skipn ds l)) in
  time = cumsum (repeat (prefix_step time_diff) (ds + 1) ++ time_diff).
Proof.
  intros Hc Hds. unfold compute_time_feature in Hc. cbv zeta in Hc.
  remember (_degrading_start (Arr1 l) (Some thr)) as d eqn:Hds'.
  apply bind_Ok in Hc. destruct Hc as (tm & Htm & [= -> <-]).
  symmetry in Hds'.
  assert (Hlen : length l <> 1).
  { intros H1. destruct l as [|x [|y l]]; try discriminate H1.
    unfold _compute_time in Htm. simpl in Htm. discriminate Htm. }
  rewrite _compute_time_1d in Htm by exact Hlen. injection Htm as <-.
  unfold time_steps.
  destruct (Nat.ltb_spec 0 ds) as [_|Hle]; [|lia].
  assert (Hin : ds < length l).
  { unfold _degrading_start, nd_where in Hds'.
    destruct (np_where (map (fun y => nltb y thr) l)) as [|i w] eqn:Ew;
      [lia|]. subst i.
    assert (Hi : In ds (np_where (map (fun y => nltb y thr) l)))
      by (rewrite Ew; left; reflexivity).
    apply np_where_lt in Hi. rewrite length_map in Hi. exact Hi. }
  rewrite Nat.min_l by lia. reflexivity.
Qed.

Example compute_time_feature_example :
  compute_time_feature (Arr1 (ints [5; 4; 3; 2; 1; 0]%Z)) None
  = Ok (0, ints [0; 1; 2; 3; 4; 5]%Z).
Proof. reflexivity. Qed.

Example compute_time_feature_censored_example :
  compute_time_feature (Arr1 (ints [9; 9; 9; 7; 5; 4; 0]%Z)) (Some (Fin 8))
  = Ok (3, ints [2; 4; 6; 8; 12; 13; 15]%Z).
Proof. reflexivity. Qed.

(** C4 (defect).  A life of one sample should get the time axis [[0]]; the
    squeezed array is zero dimensional and slicing it raises [IndexError],
    whether the sample arrives squeezed (from the constructor) or not. *)
Theorem compute_time_feature_single_sample (y : num) :
  compute_time_feature (Arr1 [y]) None = Raise IndexError
  /\ compute_time_feature (squeeze (Arr1 [y])) None = Raise IndexError
  /\ reversed_time_axis [y] = [Fin 0].
Proof. repeat split; reflexivity. Qed.

(** ** Comparisons and arithmetic on numbers *)

Lemma Qlt_bool_iff (x y : Q) : Qlt_bool x y = true <-> (x < y)%Q.
Proof.
  unfold Qlt_bool. rewrite negb_true_iff.
  split; intros Hxy.
  - apply Qnot_le_lt. intros Hle. apply Qle_bool_iff in Hle. congruence.
  - destruct (Qle_bool y x) eqn:E; [|reflexivity].
    apply Qle_bool_iff in E. exfalso. apply (Qlt_not_le _ _ Hxy E).
Qed.

Lemma Qlt_bool_false_iff (x y : Q) : Qlt_bool x y = false <-> (y <= x)%Q.
Proof.
  unfold Qlt_bool. rewrite negb_false_iff. apply Qle_bool_iff.
Qed.

Lemma nleb_Fin (a b : num) :
  nleb a b = true -> exists x y, a = Fin x /\ b = Fin y /\ (x <= y)%Q.
Proof.
  destruct a as [|x], b as [|y]; simpl; try discriminate.
  intros Hle. exists x, y. repeat split. apply Qle_bool_iff. exact Hle.
Qed.

Lemma nltb_Fin (a b : num) :
  nltb a b = true -> exists x y, a = Fin x /\ b = Fin y /\ (x < y)%Q.
Proof.
  destruct a as [|x], b as [|y]; simpl; try discriminate.
  intros Hlt. exists x, y. repeat split. apply Qlt_bool_iff. exact Hlt.
Qed.

(** A smaller horizon moves the maintenance point later: if it was not
    before the end of life, it still is not. *)
Lemma nltb_nsub_antitone (p e m1 m2 : num) :
  nleb m2 m1 = true ->
  nltb (nsub p m1) e = false ->
  nltb (nsub p m2) e = false.
Proof.
  intros Hm. apply nleb_Fin in Hm. destruct Hm as (x2 & x1 & -> & -> & Hle).
  destruct p as [|p], e as [|e]; simpl; try reflexivity.
  rewrite !Qlt_bool_false_iff. intros He. lra.
Qed.

(** ** Indexing *)

Lemma getitem_nth {A : Type} (l : list A) (i : nat) (d : A) :
  i < length l -> getitem l i = Ok (nth i l d).
Proof.
  intros Hi. unfold getitem.
  rewrite (nth_error_nth' l d Hi). reflexivity.
Qed.

Lemma getitem_last_last {A : Type} (l : list A) (d : A) :
  l <> [] -> getitem_last l = Ok (last l d).
Proof.
  intros Hl. unfold getitem_last.
  destruct (exists_last Hl) as (l' & x & ->).
  rewrite last_last, length_app. simpl.
  replace (length l' + 1 - 1) with (length l') by lia.
  unfold getitem. rewrite nth_error_app2 by lia.
  rewrite Nat.sub_diag. reflexivity.
Qed.

Lemma where_from_none (mask : list bool) (i0 : nat) :
  (forall k, k < length mask -> nth k mask false = false) ->
  where_from i0 mask = [].
Proof.
  revert i0; induction mask as [|b mask IH]; intros i0 Hno; [reflexivity|].
  assert (Hb : b = false) by (apply (Hno 0); simpl; lia).
  subst b. simpl.
  apply IH. intros k Hk. apply (Hno (S k)). simpl; lia.
Qed.

Lemma where_from_first (mask : list bool) (i0 i : nat) :
  i < length mask ->
  nth i mask false = true ->
  (forall k, k < i -> nth k mask false = false) ->
  exists w, where_from i0 mask = (i0 + i) :: w.
Proof.
  revert i0 i; induction mask as [|b mask IH]; intros i0 i Hi Hat Hbefore;
    [simpl in Hi; lia|].
  destruct i as [|i].
  - simpl in Hat. subst b. simpl. rewrite Nat.add_0_r. eauto.
  - assert (Hb : b = false) by (apply (Hbefore 0); lia).
    subst b. simpl.
    destruct (IH (S i0) i) as (w & Hw).
    + simpl in Hi; lia.
    + exact Hat.
    + intros k Hk. apply (Hbefore (S k)). lia.
    + exists w. rewrite Hw. f_equal. lia.
Qed.

(** ** End of life *)

(** The time of the first zero of [y], or the extrapolation from the last
    sample.  Both [end_of_life] and [predicted_end_of_life] are instances. *)
Lemma zero_crossing_first (time y : list num) (i : nat) :
  length y <= length time ->
  i < length y ->
  neqb (nth i y NaN) (Fin 0) = true ->
  (forall k, k < i -> neqb (nth k y NaN) (Fin 0) = false) ->
  zero_crossing time y = Ok (nth i time NaN).
Proof.
  intros Hlen Hi Hat Hbefore. unfold zero_crossing, np_where.
  destruct (where_from_first (map (fun v => neqb v (Fin 0)) y) 0 i)
    as (w & Hw).
  - rewrite length_map. exact Hi.
  - rewrite (nth_indep _ false (neqb NaN (Fin 0))) by (rewrite length_map; exact Hi).
    rewrite (map_nth (fun v => neqb v (Fin 0))). exact Hat.
  - intros k Hk.
    rewrite (nth_indep _ false (neqb NaN (Fin 0))) by (rewrite length_map; lia).
    rewrite (map_nth (fun v => neqb v (Fin 0))). apply Hbefore. exact Hk.
  - rewrite Hw. simpl. apply getitem_nth. lia.
Qed.

Lemma zero_crossing_none (time y : list num) :
  y <> [] ->
  length y <= length time ->
  (forall k, k < length y -> neqb (nth k y NaN) (Fin 0) = false) ->
  zero_crossing time y = Ok (nadd (last time NaN) (last y NaN)).
Proof.
  intros Hy Hlen Hno. unfold zero_crossing, np_where.
  rewrite where_from_none.
  - simpl. rewrite (getitem_last_last time NaN).
    + rewrite (getitem_last_last y NaN Hy). reflexivity.
    + intros ->. destruct y; [congruence | simpl in Hlen; lia].
  - intros k Hk. rewrite length_map in Hk.
    rewrite (nth_indep _ false (neqb NaN (Fin 0))) by (rewrite length_map; exact Hk).
    rewrite (map_nth (fun v => neqb v (Fin 0))). apply Hno. exact Hk.
Qed.

(** Some index is the first zero, or there is none. *)
Lemma first_zero_or_none (y : list num) :
  (exists i, i < length y /\ neqb (nth i y NaN) (Fin 0) = true /\
             forall k, k < i -> neqb (nth k y NaN) (Fin 0) = false)
  \/ (forall k, k < length y -> neqb (nth k y NaN) (Fin 0) = false).
Proof.
  induction y as [|v y IH]; [right; simpl; intros; lia|].
  destruct (neqb v (Fin 0)) eqn:Ev.
  - left. exists 0. simpl. repeat split; [lia | exact Ev | intros; lia].
  - destruct IH as [(i & Hi & Hat & Hbefore)|Hno].
    + left. exists (S i). simpl. repeat split; [lia | exact Hat |].
      intros [|k] Hk; [exact Ev | apply Hbefore; lia].
    + right. intros [|k] Hk; [exact Ev | apply Hno; simpl in Hk; lia].
Qed.

Lemma zero_crossing_total (time y : list num) :
  y <> [] -> length y <= length time -> exists v, zero_crossing time y = Ok v.
Proof.
  intros Hy Hlen.
  destruct (first_zero_or_none y) as [(i & Hi & Hat & Hbefore)|Hno].
  - eexists. apply (zero_crossing_first time y i Hlen Hi Hat Hbefore).
  - eexists. apply (zero_crossing_none time y Hy Hlen Hno).
Qed.

Section FittedLifeProperties.
Context `{Fitter}.

Lemma end_of_life_zero_crossing (self : FittedLife) :
  end_of_life self = zero_crossing (time self) (y_true self).
Proof. reflexivity. Qed.

Lemma predicted_end_of_life_zero_crossing (self : FittedLife) :
  predicted_end_of_life self = zero_crossing (time self) (y_pred self).
Proof. reflexivity. Qed.

Lemma end_of_life_total (self : FittedLife) :
  life_inv self -> exists eol, end_of_life self = Ok eol.
Proof.
  intros (Ht & _ & Hlt & _). rewrite end_of_life_zero_crossing.
  apply zero_crossing_total; assumption.
Qed.

Lemma predicted_end_of_life_total (self : FittedLife) :
  life_inv self -> exists peol, predicted_end_of_life self = Ok peol.
Proof.
  intros (_ & Hp & _ & Hlp). rewrite predicted_end_of_life_zero_crossing.
  apply zero_crossing_total; assumption.
Qed.

(** [unexpected_break] and [unexploited_lifetime] in terms of the two ends
    of life. *)
Lemma unexpected_break_unfold (self : FittedLife) (m : num) :
  unexpected_break self m =
  (p <- predicted_end_of_life self ;;
   eol <- end_of_life self ;;
   Ok (negb (nltb (nsub p m) eol))).
Proof.
  unfold unexpected_break, maintenance_point.
  destruct (predicted_end_of_life self) as [p|e]; simpl; [|reflexivity].
  destruct (end_of_life self) as [eol|e]; simpl; [|reflexivity].
  destruct (nltb (nsub p m) eol); reflexivity.
Qed.

Lemma unexploited_lifetime_unfold (self : FittedLife) (m : num) :
  unexploited_lifetime self m =
  (p <- predicted_end_of_life self ;;
   eol <- end_of_life self ;;
   Ok (if nltb (nsub p m) eol then nsub eol (nsub p m) else Fin 0)).
Proof.
  unfold unexploited_lifetime, maintenance_point.
  destruct (predicted_end_of_life self) as [p|e]; simpl; [|reflexivity].
  destruct (end_of_life self) as [eol|e]; simpl; [|reflexivity].
  destruct (nltb (nsub p m) eol); reflexivity.
Qed.

(** C5.  On a life with at least one sample and a time stamp for every
    sample, [end_of_life] and [predicted_end_of_life] return a value: the
    time at the first exact zero of the sequence, or, when there is no
    zero, the last time plus the last value. *)
Theorem end_of_life_first_zero_or_extrapolation (self : FittedLife) :
  life_inv self ->
  (exists eol, end_of_life self = Ok eol)
  /\ (exists peol, predicted_end_of_life self = Ok peol)
  /\ (forall i,
        i < length (y_true self) ->
        neqb (nth i (y_true self) NaN) (Fin 0) = true ->
        (forall k, k < i -> neqb (nth k (y_true self) NaN) (Fin 0) = false) ->
        end_of_life self = Ok (nth i (time self) NaN))
  /\ ((forall k, k < length (y_true self) ->
                 neqb (nth k (y_true self) NaN) (Fin 0) = false) ->
      end_of_life self
      = Ok (nadd (last (time self) NaN) (last (y_true self) NaN)))
  /\ (forall i,
        i < length (y_pred self) ->
        neqb (nth i (y_pred self) NaN) (Fin 0) = true ->
        (forall k, k < i -> neqb (nth k (y_pred self) NaN) (Fin 0) = false) ->
        predicted_end_of_life self = Ok (nth i (time self) NaN))
  /\ ((forall k, k < length (y_pred self) ->
                 neqb (nth k (y_pred self) NaN) (Fin 0) = false) ->
      predicted_end_of_life self
      = Ok (nadd (last (time self) NaN) (last (y_pred self) NaN))).
Proof.
  intros Hinv.
  split; [apply end_of_life_total; exact Hinv|].
  split; [apply predicted_end_of_life_total; exact Hinv|].
  destruct Hinv as (Ht & Hp & Hlt & Hlp).
  rewrite end_of_life_zero_crossing, predicted_end_of_life_zero_crossing.
  repeat split.
  - intros i. apply zero_crossing_first. exact Hlt.
  - apply zero_crossing_none; assumption.
  - intros i. apply zero_crossing_first. exact Hlp.
  - apply zero_crossing_none; assumption.
Qed.

(** C2, as the code has it.  The maintenance point is the predicted end of
    life minus the horizon, so a break at horizon [m1] is also a break at
    every smaller horizon [m2 <= m1]. *)
Theorem unexpected_break_smaller_horizon (self : FittedLife) (m1 m2 : num) :
  unexpected_break self m1 = Ok true ->
  nleb m2 m1 = true ->
  unexpected_break self m2 = Ok true.
Proof.
  rewrite !unexpected_break_unfold.
  destruct (predicted_end_of_life self) as [p|e]; simpl; [|discriminate].
  destruct (end_of_life self) as [eol|e]; simpl; [|discriminate].
  intros [= Hb] Hm. apply negb_true_iff in Hb.
  rewrite (nltb_nsub_antitone p eol m1 m2 Hm Hb). reflexivity.
Qed.

(** C3.  A break leaves no unexploited lifetime, and a positive
    unexploited lifetime excludes a break, at the same horizon. *)
Theorem unexploited_lifetime_excludes_break (self : FittedLife) (m : num) :
  (unexpected_break self m = Ok true ->
   unexploited_lifetime self m = Ok (Fin 0))
  /\ (forall ul, unexploited_lifetime self m = Ok ul ->
                 ngtb ul (Fin 0) = true ->
                 unexpected_break self m = Ok false).
Proof.
  rewrite unexpected_break_unfold, unexploited_lifetime_unfold.
  destruct (predicted_end_of_life self) as [p|e]; simpl;
    [|split; [discriminate | intros ul; discriminate]].
  destruct (end_of_life self) as [eol|e]; simpl;
    [|split; [discriminate | intros ul; discriminate]].
  destruct (nltb (nsub p m) eol) eqn:Elt; simpl; split.
  - discriminate.
  - reflexivity.
  - reflexivity.
  - intros ul [= <-]. discriminate.
Qed.

End FittedLifeProperties.

(** A life of two samples that reaches zero, as [split_lives] builds it. *)
Example example_life_built :
  FittedLife_init (ints [1; 0]%Z) (ints [1; 0]%Z) None false None
  = Ok example_life.
Proof. reflexivity. Qed.

Lemma example_life_inv : life_inv example_life.
Proof. unfold life_inv; simpl; repeat split; (discriminate || lia). Qed.

Lemma end_of_life_example :
  end_of_life example_life = Ok (Fin 1)
  /\ predicted_end_of_life example_life = Ok (Fin 1).
Proof.
  destruct (end_of_life_first_zero_or_extrapolation example_life example_life_inv)
    as (_ & _ & Htrue & _ & Hpred & _).
  split.
  - apply (Htrue 1); [simpl; lia | reflexivity |].
    intros [|k] Hk; [reflexivity | lia].
  - apply (Hpred 1); [simpl; lia | reflexivity |].
    intros [|k] Hk; [reflexivity | lia].
Defined.

(** C2 as stated fails: with the horizon growing from [0] to [1] the break
    of [example_life] disappears. *)
Lemma unexpected_break_not_monotone :
  unexpected_break example_life (Fin 0) = Ok true
  /\ ngeb (Fin 1) (Fin 0) = true
  /\ unexpected_break example_life (Fin 1) = Ok false.
Proof. repeat split. Qed.

Lemma unexpected_break_smaller_horizon_example :
  unexpected_break example_life (Fin (-1)) = Ok true.
Proof.
  apply (unexpected_break_smaller_horizon example_life (Fin 0) (Fin (-1)));
    reflexivity.
Defined.

Lemma unexploited_lifetime_excludes_break_example :
  unexploited_lifetime example_life (Fin 0) = Ok (Fin 0)
  /\ unexpected_break example_life (Fin 1) = Ok false.
Proof.
  split.
  - apply (proj1 (unexploited_lifetime_excludes_break example_life (Fin 0))).
    reflexivity.
  - apply (proj2 (unexploited_lifetime_excludes_break example_life (Fin 1))
             (Fin 1)); reflexivity.
Defined.

(** ** The constructor *)

Lemma foldM_Ok_each {A S : Type} (body : S -> A -> result S) (xs : list A)
    (s r : S) (x : A) :
  foldM body s xs = Ok r -> In x xs -> exists s1 s2, body s1 x = Ok s2.
Proof.
  revert s; induction xs as [|y xs IH]; intros s Hf Hx; [destruct Hx|].
  simpl in Hf. apply bind_Ok in Hf. destruct Hf as (s' & Hy & Hrest).
  destruct Hx as [->|Hx]; [eauto | eapply IH; eauto].
Qed.

Lemma getitem_Ok_lt {A : Type} (l : list A) (i : nat) (x : A) :
  getitem l i = Ok x -> i < length l.
Proof.
  unfold getitem. destruct (nth_error l i) eqn:E; [|discriminate].
  intros _. apply nth_error_Some. congruence.
Qed.

Lemma squeeze_Arr1 (l l' : list num) :
  squeeze (Arr1 l) = Arr1 l' -> l' = l /\ length l <> 1.
Proof.
  destruct l as [|x [|y l]]; simpl; intros [= <-]; split;
    (reflexivity || discriminate).
Qed.

Lemma as_1d_squeeze (l l' : list num) :
  as_1d (squeeze (Arr1 l)) = Ok l' -> l' = l /\ length l <> 1.
Proof.
  destruct (squeeze (Arr1 l)) as [x|l0] eqn:E; simpl; [discriminate|].
  intros [= <-]. apply squeeze_Arr1. exact E.
Qed.

Section Constructor.
Context `{Fitter}.

(** A fit that succeeds has read a time stamp for every sample. *)
Lemma _fit_picewise_linear_regression_Ok (flag : bool) (time : list num)
    (y : ndarray) (f : PiecewesieLinearFunction) :
  _fit_picewise_linear_regression flag time y = Ok f ->
  exists l, y = Arr1 l /\ length l <= length time.
Proof.
  unfold _fit_picewise_linear_regression. intros Hfit.
  destruct y as [x|l]; [discriminate|]. exists l. split; [reflexivity|].
  simpl in Hfit. apply bind_Ok in Hfit. destruct Hfit as (p & Hloop & _).
  destruct (length l) as [|n] eqn:En; [lia|].
  destruct (foldM_Ok_each _ _ _ _ n Hloop) as (s1 & s2 & Hbody).
  - apply in_seq. lia.
  - apply bind_Ok in Hbody. destruct Hbody as (t & Ht & _).
    apply getitem_Ok_lt in Ht. lia.
Qed.

(** What the constructor establishes: the sequences are stored as given,
    neither has exactly one sample, and each sample has a time stamp. *)
Lemma FittedLife_init_Ok (yt yp : list num) (tm : option time_arg)
    (flag : bool) (thr : option num) (self : FittedLife) :
  FittedLife_init yt yp tm flag thr = Ok self ->
  y_true self = yt /\ y_pred self = yp
  /\ length yt <> 1 /\ length yp <> 1
  /\ length yt <= length (time self) /\ length yp <= length (time self).
Proof.
  unfold FittedLife_init. intros Hinit.
  apply bind_Ok in Hinit. destruct Hinit as ((ds & time0) & _ & Hinit).
  apply bind_Ok in Hinit. destruct Hinit as (fp & Hfp & Hinit).
  apply bind_Ok in Hinit. destruct Hinit as (ft & Hft & Hinit).
  apply bind_Ok in Hinit. destruct Hinit as (yp' & Hyp & Hinit).
  apply bind_Ok in Hinit. destruct Hinit as (yt' & Hyt & [= <-]).
  apply as_1d_squeeze in Hyp, Hyt.
  destruct Hyp as (-> & Hp1), Hyt as (-> & Ht1).
  apply _fit_picewise_linear_regression_Ok in Hfp, Hft.
  destruct Hfp as (lp & Ep & Hlp), Hft as (lt & Et & Hlt).
  apply squeeze_Arr1 in Ep, Et. destruct Ep as (-> & _), Et as (-> & _).
  simpl. repeat split; assumption.
Qed.

(** C10, as the code has it.  With an integer [time] the constructor never
    returns.  With two samples or more it gets as far as the call of
    [np.linspace], which rejects the keyword [n]; with fewer, an exception
    comes first. *)
Theorem FittedLife_init_time_int (yt yp : list num) (t : Z) (flag : bool)
    (thr : option num) :
  match yt with
  | _ :: _ :: _ =>
      FittedLife_init yt yp (Some (TimeInt t)) flag thr = Raise TypeError
  | _ => exists e, FittedLife_init yt yp (Some (TimeInt t)) flag thr = Raise e
  end.
Proof. destruct yt as [|a [|b yt]]; try reflexivity; eexists; reflexivity. Qed.

End Constructor.

(** C10 as stated fails on a life of one sample (and on an empty one): the
    exception is an [IndexError]. *)
Lemma FittedLife_init_time_int_single_sample :
  @FittedLife_init trivial_fitter [Fin 2] [Fin 2] (Some (TimeInt 5)) false None
  = Raise IndexError
  /\ @FittedLife_init trivial_fitter [] [] (Some (TimeInt 5)) false None
     = Raise IndexError
  /\ @FittedLife_init trivial_fitter [Fin 2] [Fin 2] (Some (TimeInt 5)) false None
     <> Raise TypeError.
Proof. repeat split; discriminate. Qed.

(** ** Splitting into lives *)

Lemma take_length (l : list num) (idx : list nat) (s : list num) :
  take l idx = Ok s -> length s = length idx.
Proof. apply mapM_length. Qed.

Lemma lives_loop_nonempty (l : list nat) (r : range) :
  In r (lives_loop l) -> 0 < range_len r.
Proof.
  rewrite lives_loop_consecutive. intros Hr. apply filter_In in Hr.
  destruct Hr as (_ & Hr). apply negb_true_iff, Nat.eqb_neq in Hr. lia.
Qed.

Lemma split_lives_indices_nonempty (y : list num) (ranges : list range) (r : range) :
  split_lives_indices y = Ok ranges -> In r ranges -> 0 < range_len r.
Proof.
  unfold split_lives_indices. intros Hs.
  apply bind_Ok in Hs. destruct Hs as (d & _ & Hd).
  assert (E : lives_loop ([0] ++ np_where (map (fun x => ngtb x (Fin 0)) d)
                              ++ [length y]) = ranges)
    by (injection Hd as Hd; exact Hd).
  rewrite <- E. apply lives_loop_nonempty.
Qed.

Section SplitLives.
Context `{Fitter}.
Variables (y_true y_pred : list num) (thr : option num) (flag : bool)
          (tm : option time_arg).

Local Abbreviation body := (split_lives_body y_true y_pred thr flag tm).

(** A range whose predicted slice holds a [nan] leaves the list as it is
    and raises nothing. *)
Lemma split_lives_body_nan (lives : list FittedLife) (r : range)
    (yp : list num) :
  take y_pred (range_indices r) = Ok yp ->
  existsb isnan yp = true ->
  body lives r = Ok lives.
Proof.
  intros Hyp Hnan. unfold split_lives_body.
  rewrite Hyp. simpl. rewrite Hnan. reflexivity.
Qed.

(** Any other range adds exactly the life built from its two slices. *)
Lemma split_lives_body_Ok (lives lives' : list FittedLife) (r : range) :
  body lives r = Ok lives' ->
  (has_nan y_pred r = true /\ lives' = lives)
  \/ (has_nan y_pred r = false
      /\ exists life, built_from y_true y_pred thr flag tm r life
                      /\ lives' = lives ++ [life]).
Proof.
  unfold split_lives_body, has_nan, built_from. intros Hb.
  apply bind_Ok in Hb. destruct Hb as (yp & Hyp & Hb). rewrite Hyp.
  destruct (existsb isnan yp) eqn:Enan.
  - left. injection Hb as <-. split; reflexivity.
  - right. split; [reflexivity|].
    apply bind_Ok in Hb. destruct Hb as (yt & Hyt & Hb).
    apply bind_Ok in Hb. destruct Hb as (yp' & Hyp' & Hb).
    apply bind_Ok in Hb. destruct Hb as (life & Hlife & [= <-]).
    rewrite Hyp in Hyp'. injection Hyp' as <-.
    exists life. split; [|reflexivity].
    exists yt, yp. repeat split; assumption.
Qed.

Lemma split_lives_loop_Ok (ranges : list range) (lives lives' : list FittedLife) :
  foldM body lives ranges = Ok lives' ->
  exists new,
    lives' = lives ++ new
    /\ Forall2 (built_from y_true y_pred thr flag tm)
               (filter (fun r => negb (has_nan y_pred r)) ranges) new.
Proof.
  revert lives; induction ranges as [|r ranges IH]; intros lives Hf.
  - injection Hf as <-. exists []. rewrite app_nil_r. split; constructor.
  - simpl in Hf. apply bind_Ok in Hf. destruct Hf as (mid & Hr & Hrest).
    apply IH in Hrest. destruct Hrest as (new & -> & Hnew).
    apply split_lives_body_Ok in Hr.
    destruct Hr as [(Hnan & ->)|(Hnan & life & Hlife & ->)].
    + exists new. simpl. rewrite Hnan. simpl. split; [reflexivity | exact Hnew].
    + exists (life :: new). simpl. rewrite Hnan. simpl.
      rewrite <- app_assoc. split; [reflexivity|].
      constructor; assumption.
Qed.

(** Whenever [split_lives] returns, it returns one life per detected range
    whose predicted slice is free of [nan], in order, each built from the
    two slices of that range; the other ranges leave no trace. *)
Lemma split_lives_Ok (lives : list FittedLife) :
  split_lives y_true y_pred thr flag tm = Ok lives ->
  exists ranges,
    split_lives_indices y_true = Ok ranges
    /\ Forall2 (built_from y_true y_pred thr flag tm)
               (filter (fun r => negb (has_nan y_pred r)) ranges) lives.
Proof.
  unfold split_lives. intros Hs.
  apply bind_Ok in Hs. destruct Hs as (ranges & Hranges & Hloop).
  exists ranges. split; [exact Hranges|].
  apply split_lives_loop_Ok in Hloop. destruct Hloop as (new & -> & Hnew).
  exact Hnew.
Qed.

(** Every life [split_lives] returns satisfies the invariant. *)
Lemma split_lives_inv (lives : list FittedLife) :
  split_lives y_true y_pred thr flag tm = Ok lives ->
  Forall life_inv lives.
Proof.
  intros Hs. apply split_lives_Ok in Hs.
  destruct Hs as (ranges & Hranges & Hall).
  assert (Hne : Forall (fun r => 0 < range_len r)
                  (filter (fun r => negb (has_nan y_pred r)) ranges)).
  { apply Forall_forall. intros r Hr. apply filter_In in Hr.
    apply (split_lives_indices_nonempty y_true ranges r Hranges), Hr. }
  induction Hall as [|r life rs ls Hbuilt _ IH]; constructor.
  - inversion Hne as [|? ? Hr _]; subst.
    destruct Hbuilt as (yt & yp & Hyt & Hyp & _ & Hinit).
    apply FittedLife_init_Ok in Hinit.
    destruct Hinit as (Et & Ep & _ & _ & Hlt & Hlp).
    apply take_length in Hyt, Hyp.
    unfold range_indices in Hyt, Hyp. rewrite length_seq in Hyt, Hyp.
    unfold life_inv. rewrite Et, Ep.
    repeat split; try assumption.
    + intros ->. simpl in Hyt. lia.
    + intros ->. simpl in Hyp. lia.
  - apply IH. inversion Hne; assumption.
Qed.

End SplitLives.

Section Defects.
Context `{Fitter}.

(** C7 (defect).  On the sequence of the specification's own example the
    first retained range holds one sample; building its life raises
    [IndexError] (the squeezed slice is zero dimensional), whatever the
    fitter and the flag, although no prediction is [nan] and two lives are
    due. *)
Theorem split_lives_single_sample_life (flag : bool) :
  split_lives example_signal example_signal None flag None = Raise IndexError
  /\ split_lives_indices example_signal = Ok [mkrange 1 2; mkrange 3 8]
  /\ has_nan example_signal (mkrange 1 2) = false
  /\ has_nan example_signal (mkrange 3 8) = false.
Proof. repeat split. Qed.

(** C9.  [metric_J] never returns, whatever it iterates over: once every
    element is split the call of [metric_J_from_cv] without [q1] and [q2]
    is a [TypeError], so the combined cost cannot be reached through this
    entry point.  On every results dictionary, window size and step the
    exception is a [TypeError]: from the call on the empty dictionary, and
    otherwise already from the subscript of the first model name. *)
Theorem metric_J_never_returns (d : results) (window_size : Z) (step : nat) :
  metric_J d window_size step
  = match mapM split_lives_from_results (iterate d) with
    | Ok _ => Raise TypeError
    | Raise e => Raise e
    end
  /\ forall model_names,
       metric_J (ResultsDict model_names) window_size step = Raise TypeError.
Proof.
  split.
  - unfold metric_J.
    destruct (mapM split_lives_from_results (iterate d)); reflexivity.
  - intros [|name model_names]; reflexivity.
Qed.

End Defects.

(** On a list of fold records, which is not the dictionary, an exception
    of the splitting comes before the call: here an [IndexError], from the
    life of one sample. *)
Lemma metric_J_index_error :
  @metric_J trivial_fitter
    (FoldList [mkfold example_signal example_signal]) 4 3
  = Raise IndexError
  /\ @metric_J trivial_fitter
       (FoldList [mkfold example_signal example_signal]) 4 3
     <> Raise TypeError.
Proof. split; [reflexivity | discriminate]. Qed.

Example metric_J_type_error :
  @metric_J trivial_fitter
    (FoldList [mkfold (ints [3; 2; 1; 0; 5; 4; 3; 2; 1; 0]%Z)
                      (ints [3; 2; 1; 0; 5; 4; 3; 2; 1; 0]%Z)]) 4 3
  = Raise TypeError.
Proof. reflexivity. Qed.

(** ** The horizon sweep *)

Lemma linspace_length (a b : num) (n : nat) : length (linspace a b n) = n.
Proof.
  destruct n as [|[|n]]; try reflexivity.
  unfold linspace. rewrite length_app, length_map, length_seq. simpl. lia.
Qed.

(** A loop that appends one value per element builds the mapped list. *)
Lemma foldM_append {A B : Type} (body : list B -> A -> result (list B))
    (f : A -> B) (xs : list A) (acc : list B) :
  (forall acc x, In x xs -> body acc x = Ok (acc ++ [f x])) ->
  foldM body acc xs = Ok (acc ++ map f xs).
Proof.
  revert acc; induction xs as [|x xs IH]; intros acc Hbody; simpl.
  - rewrite app_nil_r. reflexivity.
  - rewrite (Hbody acc x (or_introl eq_refl)). simpl.
    rewrite IH by (intros acc' y Hy; apply Hbody; right; exact Hy).
    rewrite <- app_assoc. reflexivity.
Qed.

Lemma zero_crossing_value_Ok (time y : list num) :
  y <> [] -> length y <= length time ->
  zero_crossing time y = Ok (zero_crossing_value time y).
Proof.
  intros Hy Hlen. unfold zero_crossing, zero_crossing_value.
  destruct (np_where (map (fun v => neqb v (Fin 0)) y)) as [|i z] eqn:Ez.
  - simpl. rewrite (getitem_last_last time NaN).
    + rewrite (getitem_last_last y NaN Hy). reflexivity.
    + intros ->. destruct y; [congruence | simpl in Hlen; lia].
  - simpl. apply getitem_nth.
    assert (Hi : In i (np_where (map (fun v => neqb v (Fin 0)) y)))
      by (rewrite Ez; left; reflexivity).
    apply np_where_lt in Hi. rewrite length_map in Hi. lia.
Qed.

Lemma nmax_nonneg (a b : num) : nonneg a -> nonneg b -> nonneg (nmax a b).
Proof.
  intros (x & -> & Hx) (y & -> & Hy). exists (Qmax x y). split; [reflexivity|].
  apply Q.max_le_iff. left. exact Hx.
Qed.

Lemma fold_nmax_nonneg (l : list num) (a : num) :
  nonneg a -> Forall nonneg l -> nonneg (fold_left nmax l a).
Proof.
  revert a; induction l as [|x l IH]; intros a Ha Hl; simpl; [exact Ha|].
  inversion Hl; subst. apply IH; [apply nmax_nonneg|]; assumption.
Qed.

(** Dividing by a non-negative number plus [eps] never meets a zero. *)
Lemma ndiv_guarded (a d : num) :
  nonneg d -> ndiv a (nadd d eps) = Ok (lift2 Qdiv a (nadd d eps)).
Proof.
  intros (q & -> & Hq). unfold ndiv, nadd, eps, lift2.
  destruct (Qeq_bool (q + (1 # 10000000000)) 0) eqn:E.
  - apply Qeq_bool_iff in E. exfalso.
    assert (0 < 1 # 10000000000)%Q by reflexivity. lra.
  - destruct a; reflexivity.
Qed.

Lemma normalise_Ok (v : list num) :
  v <> [] -> Forall nonneg v ->
  (mx <- np_max v ;; vdiv_scalar v (nadd mx eps)) = Ok (normalised v).
Proof.
  intros Hv Hnn. destruct v as [|x v]; [congruence|].
  unfold np_max, bind, vdiv_scalar, normalised.
  apply mapM_total. intros a _. apply ndiv_guarded.
  inversion Hnn; subst. apply fold_nmax_nonneg; assumption.
Qed.

Lemma broadcast2_same_length (f : num -> num -> num) (a b : list num) :
  length a = length b ->
  broadcast2 f a b = Ok (map (fun p => f (fst p) (snd p)) (combine a b)).
Proof. intros Hl. unfold broadcast2. rewrite Hl, Nat.eqb_refl. reflexivity. Qed.

Lemma normalised_length (v : list num) : length (normalised v) = length v.
Proof. destruct v; [reflexivity|]. unfold normalised. apply length_map. Qed.

Section Sweep.
Context `{Fitter}.

Lemma end_of_life_value (self : FittedLife) :
  life_inv self -> end_of_life self = Ok (eol_value self).
Proof.
  intros (Ht & _ & Hlt & _). apply zero_crossing_value_Ok; assumption.
Qed.

Lemma predicted_end_of_life_value (self : FittedLife) :
  life_inv self -> predicted_end_of_life self = Ok (peol_value self).
Proof.
  intros (_ & Hp & _ & Hlp). apply zero_crossing_value_Ok; assumption.
Qed.

Lemma unexpected_break_value (self : FittedLife) (m : num) :
  life_inv self -> unexpected_break self m = Ok (break_value self m).
Proof.
  intros Hinv. rewrite unexpected_break_unfold.
  rewrite (predicted_end_of_life_value self Hinv), (end_of_life_value self Hinv).
  reflexivity.
Qed.

Lemma unexploited_lifetime_value (self : FittedLife) (m : num) :
  life_inv self -> unexploited_lifetime self m = Ok (unexploited_value self m).
Proof.
  intros Hinv. rewrite unexploited_lifetime_unfold.
  rewrite (predicted_end_of_life_value self Hinv), (end_of_life_value self Hinv).
  reflexivity.
Qed.

Lemma unexploited_value_nonneg (self : FittedLife) (m : num) :
  nonneg (unexploited_value self m).
Proof.
  unfold unexploited_value.
  destruct (nltb (nsub (peol_value self) m) (eol_value self)) eqn:Elt.
  - apply nltb_Fin in Elt. destruct Elt as (x & y & -> & -> & Hlt).
    exists (y - x)%Q. split; [reflexivity | lra].
  - exists 0%Q. split; [reflexivity | lra].
Qed.

Lemma num_of_bool_nonneg (b : bool) : nonneg (num_of_bool b).
Proof. destruct b; [exists 1%Q | exists 0%Q]; split; (reflexivity || lra). Qed.

(** One fold at one horizon. *)
Lemma J_of_fold_cost (q1 q2 m : num) (r : list FittedLife) :
  r <> [] -> Forall life_inv r ->
  J_of_fold q1 q2 m r = Ok (fold_cost q1 q2 m r).
Proof.
  intros Hr Hinv. unfold J_of_fold.
  rewrite (mapM_total _ (fun life => break_value life m))
    by (intros life Hl; apply unexpected_break_value;
        exact (proj1 (Forall_forall _ _) Hinv life Hl)).
  cbn [bind]. rewrite map_map.
  set (ub := map (fun life => num_of_bool (break_value life m)) r).
  assert (Hub : (mx <- np_max ub ;; vdiv_scalar ub (nadd mx eps))
                = Ok (normalised ub)).
  { apply normalise_Ok.
    - unfold ub. destruct r; [congruence | discriminate].
    - unfold ub. apply Forall_map, Forall_forall. intros life _.
      apply num_of_bool_nonneg. }
  destruct (np_max ub) as [ubmax|e]; [|discriminate Hub].
  cbn [bind] in Hub |- *. rewrite Hub. cbn [bind].
  rewrite (mapM_total _ (fun life => unexploited_value life m))
    by (intros life Hl; apply unexploited_lifetime_value;
        exact (proj1 (Forall_forall _ _) Hinv life Hl)).
  cbn [bind].
  set (ul := map (fun life => unexploited_value life m) r).
  assert (Hul : (mx <- np_max ul ;; vdiv_scalar ul (nadd mx eps))
                = Ok (normalised ul)).
  { apply normalise_Ok.
    - unfold ul. destruct r; [congruence | discriminate].
    - unfold ul. apply Forall_map, Forall_forall. intros life _.
      apply unexploited_value_nonneg. }
  destruct (np_max ul) as [ulmax|e]; [|discriminate Hul].
  cbn [bind] in Hul |- *. rewrite Hul. cbn [bind].
  unfold vadd. rewrite broadcast2_same_length.
  - reflexivity.
  - unfold vmul_scalar. rewrite !length_map, !normalised_length.
    unfold ub, ul. rewrite !length_map. reflexivity.
Qed.

(** C6.  When every fold is non-empty and holds lives with at least one
    sample, [metric_J_from_cv] returns (no division by zero, no other
    exception) the [n] horizons of the sweep and, for each of them, the
    mean over the folds of the fold means of
    [q1 * ub / (max ub + 1e-10) + q2 * ul / (max ul + 1e-10)]. *)
Theorem metric_J_from_cv_sweep (lives : list (list FittedLife))
    (window_size : Z) (n : nat) (q1 q2 : num) :
  Forall (fun r => r <> [] /\ Forall life_inv r) lives ->
  metric_J_from_cv lives window_size n q1 q2
  = Ok (linspace (Fin 0) (num_of_Z window_size) n,
        map (combined_cost q1 q2 lives)
            (linspace (Fin 0) (num_of_Z window_size) n))
  /\ length (map (combined_cost q1 q2 lives)
                 (linspace (Fin 0) (num_of_Z window_size) n)) = n.
Proof.
  intros Hlives. split; [|rewrite length_map; apply linspace_length].
  unfold metric_J_from_cv.
  rewrite (foldM_append _ (combined_cost q1 q2 lives)).
  - reflexivity.
  - intros J m _.
    rewrite (foldM_append _ (fold_cost q1 q2 m)).
    + reflexivity.
    + intros J_of_m r Hr.
      destruct (proj1 (Forall_forall _ _) Hlives r Hr) as (Hne & Hinv).
      rewrite (J_of_fold_cost q1 q2 m r Hne Hinv). reflexivity.
Qed.

End Sweep.

Lemma example_fold_inv :
  Forall (fun r => r <> [] /\ Forall life_inv r) [[example_life; example_life]].
Proof.
  repeat constructor; try discriminate; apply example_life_inv.
Qed.

Lemma metric_J_from_cv_example :
  exists J, metric_J_from_cv [[example_life; example_life]] 2 3 (Fin 1) (Fin 1)
            = Ok (linspace (Fin 0) (Fin 2) 3, J)
            /\ length J = 3.
Proof.
  eexists.
  exact (metric_J_from_cv_sweep [[example_life; example_life]] 2 3 (Fin 1) (Fin 1)
           example_fold_inv).
Defined.

(** ** Binned errors *)

Lemma list_set_nth_error {A : Type} (l l' : list A) (i : nat) (v : A) :
  list_set l i v = Some l' ->
  forall k, nth_error l' k = if k =? i then Some v else nth_error l k.
Proof.
  revert i l'; induction l as [|x l IH]; intros i l' Hs; [discriminate|].
  destruct i as [|i]; simpl in Hs.
  - injection Hs as <-. intros [|k]; reflexivity.
  - destruct (list_set l i v) as [l''|] eqn:E; [|discriminate].
    injection Hs as <-. intros [|k]; [reflexivity|].
    simpl. apply (IH i l'' E).
Qed.

Lemma mat_set_entry (a a' : list (list num)) (i j : nat) (v : num) :
  mat_set a i j v = Ok a' ->
  forall i' j',
    entry a' i' j' = if (i' =? i) && (j' =? j) then Some v else entry a i' j'.
Proof.
  unfold mat_set. intros Hs i' j'.
  destruct (nth_error a i) as [row|] eqn:Erow; [|discriminate].
  destruct (list_set row j v) as [row'|] eqn:Erow'; [|discriminate].
  destruct (list_set a i row') as [a''|] eqn:Ea; [|discriminate].
  injection Hs as <-. unfold entry.
  rewrite (list_set_nth_error a a'' i row' Ea i').
  destruct (Nat.eqb_spec i' i) as [->|Hi]; simpl; [|reflexivity].
  rewrite Erow. apply (list_set_nth_error row row' j v Erow').
Qed.

Lemma entry_zeros2 (rows cols i j : nat) :
  i < rows -> j < cols -> entry (zeros2 rows cols) i j = Some (Fin 0).
Proof.
  intros Hi Hj. unfold entry, zeros2, zeros.
  rewrite (nth_error_repeat _ Hi). apply nth_error_repeat. exact Hj.
Qed.

Lemma np_where_map (p : num -> bool) (l : list num) :
  np_where (map p l) = filter (fun k => p (nth k l NaN)) (seq 0 (length l)).
Proof.
  unfold np_where. rewrite <- (map_nth_seq l NaN) at 1.
  rewrite map_map. apply (where_from_filter (fun k => p (nth k l NaN))).
Qed.

Lemma nd_where_squeeze (p : num -> bool) (l : list num) :
  nd_where p (squeeze (Arr1 l)) = np_where (map p l).
Proof. destruct l as [|x [|y l]]; reflexivity. Qed.

Lemma take_Ok (l : list num) (idx : list nat) (s : list num) :
  take l idx = Ok s -> s = map (fun k => nth k l NaN) idx.
Proof.
  unfold take. revert s; induction idx as [|k idx IH]; intros s; simpl.
  - intros [= <-]. reflexivity.
  - intros Hs. apply bind_Ok in Hs. destruct Hs as (x & Hx & Hs).
    apply bind_Ok in Hs. destruct Hs as (s' & Hs' & [= <-]).
    rewrite (IH s' Hs'). f_equal.
    rewrite (getitem_nth l k NaN (getitem_Ok_lt l k x Hx)) in Hx. congruence.
Qed.

Lemma nd_take_squeeze_Ok (l : list num) (idx : list nat) (s : list num) :
  nd_take (squeeze (Arr1 l)) idx = Ok s -> s = map (fun k => nth k l NaN) idx.
Proof.
  destruct (squeeze (Arr1 l)) as [x|l'] eqn:E; simpl; [discriminate|].
  apply squeeze_Arr1 in E. destruct E as (-> & _). apply take_Ok.
Qed.

Lemma combine_map_same {A B C : Type} (f : A -> B) (g : A -> C) (l : list A) :
  combine (map f l) (map g l) = map (fun x => (f x, g x)) l.
Proof. induction l as [|x l IH]; simpl; [reflexivity | rewrite IH; reflexivity]. Qed.

(** What one bin of one fold does to the object, when it raises nothing:
    nothing at all for a bin without sample; otherwise the three statistics
    of the bin's errors are stored and the errors appended. *)
Lemma add_bin_Ok (fold j : nat) (yp yt : list num) (self self' : CVResults) :
  add_bin fold (squeeze (Arr1 yp)) (squeeze (Arr1 yt)) self j = Ok self' ->
  let errs := bin_errors (bin_edges self) yt yp j in
  bin_edges self' = bin_edges self
  /\ n_bins self' = n_bins self
  /\ n_folds self' = n_folds self
  /\ errors self' = errors self ++ (if is_empty errs then [] else [errs])
  /\ forall i' j',
       let here := (i' =? fold) && (j' =? j) && negb (is_empty errs) in
       entry (mean_error self') i' j'
       = (if here then Some (mean errs) else entry (mean_error self) i' j')
       /\ entry (mae self') i' j'
          = (if here then Some (mean (map nabs errs))
             else entry (mae self) i' j')
       /\ entry (mse self') i' j'
          = (if here then Some (mean (map (fun e => nmul e e) errs))
             else entry (mse self) i' j').
Proof.
  intros Hadd errs. unfold add_bin in Hadd.
  apply bind_Ok in Hadd. destruct Hadd as (lo & Hlo & Hadd).
  apply bind_Ok in Hadd. destruct Hadd as (hi & Hhi & Hadd).
  rewrite (getitem_nth _ _ NaN (getitem_Ok_lt _ _ _ Hlo)) in Hlo.
  rewrite (getitem_nth _ _ NaN (getitem_Ok_lt _ _ _ Hhi)) in Hhi.
  injection Hlo as <-. injection Hhi as <-.
  rewrite nd_where_squeeze, np_where_map in Hadd.
  fold (bin_samples (bin_edges self) yt j) in Hadd.
  unfold errs, bin_errors.
  destruct (bin_samples (bin_edges self) yt j) as [|k ks] eqn:Es.
  - injection Hadd as <-. simpl. rewrite app_nil_r.
    repeat split; reflexivity || (rewrite andb_false_r; reflexivity).
  - cbn [length Nat.eqb] in Hadd.
    apply bind_Ok in Hadd. destruct Hadd as (a & Ha & Hadd).
    apply bind_Ok in Hadd. destruct Hadd as (b & Hb & Hadd).
    apply nd_take_squeeze_Ok in Ha, Hb. subst a b.
    unfold vsub in Hadd.
    rewrite broadcast2_same_length in Hadd by (rewrite !length_map; reflexivity).
    rewrite combine_map_same, map_map in Hadd. cbn [bind fst snd] in Hadd.
    set (es := map (fun k => nsub (nth k yt NaN) (nth k yp NaN)) (k :: ks)) in *.
    apply bind_Ok in Hadd. destruct Hadd as (m1 & Hm1 & Hadd).
    apply bind_Ok in Hadd. destruct Hadd as (m2 & Hm2 & Hadd).
    apply bind_Ok in Hadd. destruct Hadd as (m3 & Hm3 & [= <-]).
    cbn [bin_edges n_bins n_folds errors mean_error mae mse].
    repeat (split; [reflexivity|]).
    intros i' j'. cbv zeta. cbn [is_empty negb]. rewrite andb_true_r.
    rewrite (mat_set_entry _ _ _ _ _ Hm1 i' j').
    rewrite (mat_set_entry _ _ _ _ _ Hm2 i' j').
    rewrite (mat_set_entry _ _ _ _ _ Hm3 i' j').
    repeat split; reflexivity.
Qed.

Lemma add_bin_stats (fold j : nat) (yp yt : list num) (self self' : CVResults) :
  add_bin fold (squeeze (Arr1 yp)) (squeeze (Arr1 yt)) self j = Ok self' ->
  forall i' j',
    stats_at self' i' j'
    = if (i' =? fold) && (j' =? j)
         && negb (is_empty (bin_errors (bin_edges self) yt yp j))
      then bin_stats (bin_errors (bin_edges self) yt yp j)
      else stats_at self i' j'.
Proof.
  intros Hadd i' j'. apply add_bin_Ok in Hadd. cbv zeta in Hadd.
  destruct Hadd as (_ & _ & _ & _ & Hentries).
  destruct (Hentries i' j') as (H1 & H2 & H3).
  unfold stats_at, bin_stats. rewrite H1, H2, H3.
  destruct ((i' =? fold) && (j' =? j)
            && negb (is_empty (bin_errors (bin_edges self) yt yp j)));
    reflexivity.
Qed.

Lemma existsb_eqb_seq (j n : nat) : existsb (Nat.eqb j) (seq 0 n) = (j <? n).
Proof.
  destruct (Nat.ltb_spec j n) as [Hlt|Hge].
  - apply existsb_exists. exists j. split; [apply in_seq; lia | apply Nat.eqb_refl].
  - destruct (existsb (Nat.eqb j) (seq 0 n)) eqn:E; [|reflexivity].
    apply existsb_exists in E. destruct E as (k & Hk & Ek).
    apply in_seq in Hk. apply Nat.eqb_eq in Ek. lia.
Qed.

(** The loop over the bins [js] of one fold. *)
Lemma add_bins_Ok (fold : nat) (yp yt : list num) (js : list nat)
    (self self' : CVResults) :
  foldM (add_bin fold (squeeze (Arr1 yp)) (squeeze (Arr1 yt))) self js = Ok self' ->
  bin_edges self' = bin_edges self
  /\ n_bins self' = n_bins self
  /\ n_folds self' = n_folds self
  /\ errors self'
     = errors self
       ++ filter (fun e => negb (is_empty e))
                 (map (bin_errors (bin_edges self) yt yp) js)
  /\ forall i' j',
       stats_at self' i' j'
       = if (i' =? fold) && existsb (Nat.eqb j') js
            && negb (is_empty (bin_errors (bin_edges self) yt yp j'))
         then bin_stats (bin_errors (bin_edges self) yt yp j')
         else stats_at self i' j'.
Proof.
  revert self; induction js as [|j js IH]; intros self Hloop.
  - injection Hloop as <-. simpl. rewrite app_nil_r.
    repeat split. intros i' j'. rewrite andb_false_r. reflexivity.
  - simpl in Hloop. apply bind_Ok in Hloop. destruct Hloop as (mid & Hj & Hrest).
    pose proof (add_bin_stats fold j yp yt self mid Hj) as Hstats.
    apply add_bin_Ok in Hj. cbv zeta in Hj.
    destruct Hj as (He & Hb & Hf & Herr & _).
    apply IH in Hrest. rewrite He in Hrest.
    destruct Hrest as (He' & Hb' & Hf' & Herr' & Hstats').
    repeat split; try congruence.
    + rewrite Herr', Herr. rewrite <- app_assoc. f_equal.
      cbn [map filter].
      destruct (is_empty (bin_errors (bin_edges self) yt yp j)); reflexivity.
    + intros i' j'. rewrite Hstats', Hstats. cbn [existsb].
      destruct (Nat.eqb_spec j' j) as [->|Hne]; simpl.
      * destruct (i' =? fold); simpl; [|reflexivity].
        destruct (existsb (Nat.eqb j) js); simpl;
          destruct (is_empty (bin_errors (bin_edges self) yt yp j)); reflexivity.
      * rewrite andb_false_r. reflexivity.
Qed.

Lemma _add_fold_result_Ok (self self' : CVResults) (fold : nat)
    (yp yt : list num) :
  _add_fold_result self fold yp yt = Ok self' ->
  let nb := length (bin_edges self) - 1 in
  bin_edges self' = bin_edges self
  /\ n_bins self' = n_bins self
  /\ n_folds self' = n_folds self
  /\ errors self' = errors self ++ fold_errors (bin_edges self) nb (yp, yt)
  /\ forall i' j',
       stats_at self' i' j'
       = if (i' =? fold) && (j' <? nb)
            && negb (is_empty (bin_errors (bin_edges self) yt yp j'))
         then bin_stats (bin_errors (bin_edges self) yt yp j')
         else stats_at self i' j'.
Proof.
  intros Hfold nb. unfold _add_fold_result in Hfold. apply add_bins_Ok in Hfold.
  destruct Hfold as (He & Hb & Hf & Herr & Hstats).
  repeat split; try assumption.
  intros i' j'. rewrite Hstats, existsb_eqb_seq. reflexivity.
Qed.

(** The loop over the folds [l], numbered from [a]. *)
Lemma add_folds_Ok (l : list (list num * list num)) (a : nat)
    (self self' : CVResults) :
  foldM (fun self iy =>
           let '(i, (y_pred, y_true)) := iy in
           _add_fold_result self i y_pred y_true)
        self (combine (seq a (length l)) l) = Ok self' ->
  let nb := length (bin_edges self) - 1 in
  bin_edges self' = bin_edges self
  /\ n_bins self' = n_bins self
  /\ n_folds self' = n_folds self
  /\ errors self'
     = errors self ++ concat (map (fold_errors (bin_edges self) nb) l)
  /\ forall i' j',
       stats_at self' i' j'
       = match (if a <=? i' then nth_error l (i' - a) else None) with
         | Some (yp, yt) =>
             if (j' <? nb)
                && negb (is_empty (bin_errors (bin_edges self) yt yp j'))
             then bin_stats (bin_errors (bin_edges self) yt yp j')
             else stats_at self i' j'
         | None => stats_at self i' j'
         end.
Proof.
  revert a self; induction l as [|(yp, yt) l IH]; intros a self Hloop nb.
  - injection Hloop as <-. simpl. rewrite app_nil_r. repeat split.
    intros i' j'. destruct (a <=? i'); [destruct (i' - a)|]; reflexivity.
  - cbn [length seq combine foldM] in Hloop.
    apply bind_Ok in Hloop. destruct Hloop as (mid & Hfold & Hrest).
    apply _add_fold_result_Ok in Hfold. cbv zeta in Hfold. fold nb in Hfold.
    destruct Hfold as (He & Hb & Hf & Herr & Hstats).
    apply IH in Hrest. cbv zeta in Hrest. rewrite He in Hrest. fold nb in Hrest.
    destruct Hrest as (He' & Hb' & Hf' & Herr' & Hstats').
    repeat split; try congruence.
    + rewrite Herr', Herr. rewrite <- app_assoc. reflexivity.
    + intros i' j'. rewrite Hstats', Hstats.
      destruct (Nat.leb_spec a i') as [Hle|Hlt].
      * destruct (Nat.eqb_spec i' a) as [->|Hne].
        -- rewrite Nat.sub_diag.
           destruct (Nat.leb_spec (S a) a) as [Hbad|_]; [lia|].
           reflexivity.
        -- destruct (Nat.leb_spec (S a) i') as [_|Hbad]; [|lia].
           replace (i' - a) with (S (i' - S a)) by lia. reflexivity.
      * destruct (Nat.leb_spec (S a) i') as [Hbad|_]; [lia|].
        destruct (Nat.eqb_spec i' a) as [->|_]; [lia|]. reflexivity.
Qed.


Lemma in_bin_iff (lo hi y : num) :
  in_bin lo hi y = true <-> nleb lo y = true /\ nleb y hi = true.
Proof. unfold in_bin, ngeb. apply andb_true_iff. Qed.

Lemma bin_samples_In (edges yt : list num) (j k : nat) :
  In k (bin_samples edges yt j) <->
  k < length yt
  /\ nleb (nth j edges NaN) (nth k yt NaN) = true
  /\ nleb (nth k yt NaN) (nth (j + 1) edges NaN) = true.
Proof.
  unfold bin_samples. rewrite filter_In, in_seq, in_bin_iff.
  split; intros (Hk & Hb); (split; [lia | exact Hb]).
Qed.



(** ** The construction returns on well-shaped folds *)

Lemma foldM_invariant {A S : Type} (Inv : S -> Prop) (body : S -> A -> result S)
    (xs : list A) (s : S) :
  (forall s x, In x xs -> Inv s -> exists s', body s x = Ok s' /\ Inv s') ->
  Inv s ->
  exists s', foldM body s xs = Ok s' /\ Inv s'.
Proof.
  revert s; induction xs as [|x xs IH]; intros s Hbody Hs.
  - exists s. split; [reflexivity | exact Hs].
  - destruct (Hbody s x (or_introl eq_refl) Hs) as (s1 & Hx & Hs1).
    simpl. rewrite Hx. simpl. apply IH; [|exact Hs1].
    intros s2 y Hy. apply Hbody. right. exact Hy.
Qed.

Lemma list_set_total {A : Type} (l : list A) (i : nat) (v : A) :
  i < length l -> exists l', list_set l i v = Some l' /\ length l' = length l.
Proof.
  revert i; induction l as [|x l IH]; intros i Hi; [simpl in Hi; lia|].
  destruct i as [|i]; simpl.
  - eexists. split; reflexivity.
  - destruct (IH i) as (l' & Hl' & Hlen); [simpl in Hi; lia|].
    rewrite Hl'. eexists. split; [reflexivity | simpl; congruence].
Qed.

Lemma list_set_Forall {A : Type} (P : A -> Prop) (l l' : list A) (i : nat) (v : A) :
  list_set l i v = Some l' -> Forall P l -> P v -> Forall P l'.
Proof.
  revert i l'; induction l as [|x l IH]; intros i l' Hs Hl Hv; [discriminate|].
  inversion Hl as [|? ? Hx Hl']; subst. destruct i as [|i]; simpl in Hs.
  - injection Hs as <-. constructor; assumption.
  - destruct (list_set l i v) as [l''|] eqn:E; [|discriminate].
    injection Hs as <-. constructor; [exact Hx | eapply IH; eauto].
Qed.

Lemma mat_set_total (rows cols : nat) (a : list (list num)) (i j : nat) (v : num) :
  dims rows cols a -> i < rows -> j < cols ->
  exists a', mat_set a i j v = Ok a' /\ dims rows cols a'.
Proof.
  intros (Hrows & Hcols) Hi Hj. unfold mat_set.
  destruct (nth_error a i) as [row|] eqn:Erow;
    [|apply nth_error_None in Erow; lia].
  assert (Hrow : length row = cols).
  { apply (proj1 (Forall_forall _ _) Hcols). eapply nth_error_In; eauto. }
  destruct (list_set_total row j v) as (row' & Hrow' & Hlen'); [lia|].
  rewrite Hrow'.
  destruct (list_set_total a i row') as (a' & Ha' & Hlena); [lia|].
  rewrite Ha'. exists a'. split; [reflexivity|]. split; [congruence|].
  apply (list_set_Forall _ a a' i row' Ha' Hcols). congruence.
Qed.

Lemma take_total (l : list num) (idx : list nat) :
  Forall (fun k => k < length l) idx ->
  take l idx = Ok (map (fun k => nth k l NaN) idx).
Proof.
  intros Hidx. apply mapM_total. intros k Hk.
  apply getitem_nth. exact (proj1 (Forall_forall _ _) Hidx k Hk).
Qed.

Lemma np_where_bounded (mask : list bool) :
  Forall (fun k => k < length mask) (np_where mask).
Proof. apply Forall_forall. intros k. apply np_where_lt. Qed.

Lemma add_bin_total (fold j : nat) (yp yt : list num) (self : CVResults) :
  cv_shape self -> fold < n_folds self -> j < n_bins self ->
  length yp = length yt -> length yt <> 1 ->
  exists self',
    add_bin fold (squeeze (Arr1 yp)) (squeeze (Arr1 yt)) self j = Ok self'
    /\ cv_shape self'
    /\ n_folds self' = n_folds self /\ n_bins self' = n_bins self.
Proof.
  intros Hshape Hfold Hj Hlen Hyt.
  pose proof Hshape as (H1 & H2 & H3 & Hnb). unfold add_bin.
  rewrite (getitem_nth (bin_edges self) j NaN) by lia.
  rewrite (getitem_nth (bin_edges self) (j + 1) NaN) by lia.
  cbn [bind].
  rewrite !squeeze_1d by congruence. cbn [nd_where nd_take].
  set (idx := np_where (map _ yt)).
  assert (Hidx : Forall (fun k => k < length yt) idx).
  { pose proof (np_where_bounded
                  (map (in_bin (nth j (bin_edges self) NaN)
                               (nth (j + 1) (bin_edges self) NaN)) yt)) as Hb.
    rewrite length_map in Hb. exact Hb. }
  destruct (length idx =? 0).
  - exists self. split; [reflexivity | split; [exact Hshape | split; reflexivity]].
  - rewrite (take_total yt idx Hidx).
    rewrite (take_total yp idx) by (rewrite Hlen; exact Hidx).
    cbn [bind]. unfold vsub.
    rewrite broadcast2_same_length by (rewrite !length_map; reflexivity).
    cbn [bind].
    match goal with |- context [mat_set (mean_error self) fold j ?v] =>
      destruct (mat_set_total _ _ (mean_error self) fold j v H1 Hfold Hj)
        as (m1 & -> & Hm1) end.
    cbn [bind].
    match goal with |- context [mat_set (mae self) fold j ?v] =>
      destruct (mat_set_total _ _ (mae self) fold j v H2 Hfold Hj)
        as (m2 & -> & Hm2) end.
    cbn [bind].
    match goal with |- context [mat_set (mse self) fold j ?v] =>
      destruct (mat_set_total _ _ (mse self) fold j v H3 Hfold Hj)
        as (m3 & -> & Hm3) end.
    cbn [bind].
    eexists. split; [reflexivity|].
    unfold cv_shape. cbn [n_folds n_bins bin_edges mean_error mae mse].
    split; [|split; reflexivity].
    split; [exact Hm1 | split; [exact Hm2 | split; [exact Hm3 | exact Hnb]]].
Qed.

Lemma _add_fold_result_total (self : CVResults) (fold : nat) (yp yt : list num) :
  cv_shape self -> fold < n_folds self ->
  length yp = length yt -> length yt <> 1 ->
  exists self',
    _add_fold_result self fold yp yt = Ok self'
    /\ cv_shape self'
    /\ n_folds self' = n_folds self /\ n_bins self' = n_bins self.
Proof.
  intros Hshape Hfold Hlen Hyt. unfold _add_fold_result.
  replace (length (bin_edges self) - 1) with (n_bins self)
    by (destruct Hshape as (_ & _ & _ & ->); reflexivity).
  destruct (foldM_invariant
              (fun s => cv_shape s /\ n_folds s = n_folds self
                        /\ n_bins s = n_bins self)
              (add_bin fold (squeeze (Arr1 yp)) (squeeze (Arr1 yt)))
              (seq 0 (n_bins self)) self) as (self' & Hloop & Hinv).
  - intros s j Hin (Hs & Hnf & Hnb). apply in_seq in Hin.
    destruct (add_bin_total fold j yp yt s Hs) as (s' & Hadd & Hs' & Hnf' & Hnb');
      try assumption; try lia.
    exists s'. split; [exact Hadd | split; [exact Hs' | split; congruence]].
  - split; [exact Hshape | split; reflexivity].
  - exists self'. split; [exact Hloop | exact Hinv].
Qed.

Lemma zeros2_dims (rows cols : nat) : dims rows cols (zeros2 rows cols).
Proof.
  split; [apply repeat_length|].
  apply Forall_forall. intros r Hr. apply repeat_spec in Hr. subst r.
  apply zeros_length.
Qed.

(** X20.  With bin edges at hand, folds whose predictions are as long as
    the true values and that do not consist of a single sample are binned
    without an exception. *)
Lemma CVResults_init_total (y_true y_pred : list (list num)) (nbins : nat)
    (edges : option (list num)) :
  match edges with
  | Some e => e <> []
  | None => y_true <> [] /\ Forall (fun y => y <> []) y_true
  end ->
  Forall (fun p => length (fst p) = length (snd p) /\ length (snd p) <> 1)
         (combine y_pred y_true) ->
  exists cv, CVResults_init y_true y_pred nbins edges = Ok cv.
Proof.
  intros Hedges Hfolds. unfold CVResults_init.
  assert (HE : exists e0 E,
             match edges with
             | None =>
                 maxima <- mapM np_max y_true ;;
                 max_value <- np_max maxima ;;
                 Ok (linspace (Fin 0) max_value (nbins + 1))
             | Some e => Ok e
             end = Ok (e0 :: E)).
  { destruct edges as [[|e0 E]|].
    - congruence.
    - eauto.
    - destruct Hedges as (Hne & Hall).
      rewrite (mapM_total np_max (fun y => fold_left nmax (tl y) (hd NaN y))).
      + cbn [bind]. destruct y_true as [|y ys]; [congruence|].
        cbn [map np_max bind].
        match goal with |- context [linspace ?a ?b ?n] =>
          pose proof (linspace_length a b n) as Hl;
          destruct (linspace a b n) as [|e0 E] end; [simpl in Hl; lia | eauto].
      + intros y Hy. pose proof (proj1 (Forall_forall _ _) Hall y Hy) as Hy'.
        destruct y; [congruence | reflexivity]. }
  destruct HE as (e0 & E & ->). cbn [bind].
  set (self0 := {| n_folds := length y_true;
                   n_bins := length (e0 :: E) - 1;
                   bin_edges := e0 :: E;
                   mean_error := zeros2 (length y_true) (length (e0 :: E) - 1);
                   mae := zeros2 (length y_true) (length (e0 :: E) - 1);
                   mse := zeros2 (length y_true) (length (e0 :: E) - 1);
                   errors := [] |}).
  destruct (foldM_invariant
              (fun s => cv_shape s /\ n_folds s = length y_true
                        /\ n_bins s = n_bins self0)
              (fun self iy =>
                 let '(i, (y_pred, y_true)) := iy in
                 _add_fold_result self i y_pred y_true)
              (enumerate (combine y_pred y_true)) self0)
    as (cv & Hloop & _).
  - intros s (i & (yp & yt)) Hin (Hs & Hnf & Hnb).
    unfold enumerate in Hin.
    pose proof (in_combine_l _ _ _ _ Hin) as Hi. apply in_seq in Hi.
    pose proof (in_combine_r _ _ _ _ Hin) as Hp.
    pose proof (proj1 (Forall_forall _ _) Hfolds _ Hp) as (Hlen & Hyt).
    simpl in Hlen, Hyt.
    assert (Hle : length (combine y_pred y_true) <= length y_true)
      by (rewrite length_combine; lia).
    destruct (_add_fold_result_total s i yp yt Hs) as (s' & Hadd & Hs' & Hnf' & Hnb');
      try assumption; try lia.
    exists s'. split; [exact Hadd | split; [exact Hs' | split; congruence]].
  - unfold cv_shape, self0. cbn [n_folds n_bins bin_edges mean_error mae mse].
    split; [|split; reflexivity].
    split; [apply zeros2_dims | split; [apply zeros2_dims | split;
      [apply zeros2_dims | reflexivity]]].
  - exists cv. exact Hloop.
Qed.

(** ** Lives of two samples or more are built *)

Lemma cumsum_from_length (acc : num) (l : list num) :
  length (cumsum_from acc l) = length l.
Proof.
  revert acc; induction l as [|x l IH]; intros acc; simpl; [reflexivity|].
  rewrite IH. reflexivity.
Qed.

Lemma cumsum_length (l : list num) : length (cumsum l) = length l.
Proof. destruct l; simpl; [reflexivity | rewrite cumsum_from_length; reflexivity]. Qed.

Lemma time_steps_length (y : list num) (ds : nat) :
  length (time_steps y ds) = length y.
Proof.
  unfold time_steps. rewrite length_app, diff_length, length_rev, length_skipn.
  destruct (0 <? ds).
  - rewrite repeat_length. lia.
  - rewrite length_firstn, zeros_length. lia.
Qed.

Section TotalFitter.
Context `{Fitter}.
Hypothesis add_point_total :
  forall pwlr t v, exists pwlr', add_point pwlr t v = Ok pwlr'.
Hypothesis finish_total : forall pwlr, exists line, finish pwlr = Ok line.

Lemma _fit_picewise_linear_regression_total (flag : bool) (time y : list num) :
  length y <= length time ->
  exists line, _fit_picewise_linear_regression flag time (Arr1 y) = Ok line.
Proof.
  intros Hlen. unfold _fit_picewise_linear_regression. cbn [len bind].
  destruct (foldM_invariant (fun _ => True)
              (fun pwlr j =>
                 t <- getitem time j ;;
                 v <- nd_getitem (Arr1 y) j ;;
                 add_point pwlr t v)
              (seq 0 (length y)) (pwlr_init flag)) as (pwlr & -> & _).
  - intros p j Hj _. apply in_seq in Hj.
    rewrite (getitem_nth time j NaN) by lia. cbn [bind nd_getitem].
    rewrite (getitem_nth y j NaN) by lia. cbn [bind].
    destruct (add_point_total p (nth j time NaN) (nth j y NaN)) as (p' & ->).
    exists p'. split; [reflexivity | exact I].
  - exact I.
  - apply finish_total.
Qed.

(** The constructor returns on sequences of equal length with two samples
    or more, when the time axis is computed. *)
Lemma FittedLife_init_total (yt yp : list num) (flag : bool) (thr : option num) :
  2 <= length yt -> length yp = length yt ->
  exists self, FittedLife_init yt yp None flag thr = Ok self.
Proof.
  intros Hyt Hyp. unfold FittedLife_init.
  rewrite !squeeze_1d by lia.
  unfold compute_time_feature. rewrite _compute_time_1d by lia. cbn [bind].
  set (time := cumsum _).
  assert (Htime : length time = length yt)
    by (unfold time; rewrite cumsum_length; apply time_steps_length).
  destruct (_fit_picewise_linear_regression_total flag time yp) as (fp & ->);
    [lia|].
  destruct (_fit_picewise_linear_regression_total flag time yt) as (ft & ->);
    [lia|].
  cbn [bind as_1d]. eexists. reflexivity.
Qed.

(** X19.  With a fitter that accepts every point, [split_lives] returns
    whenever the predictions are as long as the true values and no life is
    cut down to a single sample. *)
Lemma split_lives_total (y_true y_pred : list num) (thr : option num)
    (flag : bool) :
  length y_pred = length y_true ->
  length y_true <> 1 ->
  Forall (fun r => 2 <= range_len r) (life_ranges y_true) ->
  exists lives, split_lives y_true y_pred thr flag None = Ok lives.
Proof.
  intros Hlen Hy Hranges. unfold split_lives.
  rewrite split_lives_indices_ranges by exact Hy. cbn [bind].
  destruct (foldM_invariant (fun _ => True)
              (split_lives_body y_true y_pred thr flag None)
              (life_ranges y_true) []) as (lives & Hloop & _).
  - intros lives r Hr _. unfold split_lives_body.
    assert (Hidx : Forall (fun k => k < length y_true) (range_indices r)).
    { apply Forall_forall. intros k Hk.
      apply (life_ranges_skip_breakpoints y_true r k Hr Hk). }
    rewrite (take_total y_pred) by (rewrite Hlen; exact Hidx). cbn [bind].
    destruct (existsb isnan _); [exists lives; split; [reflexivity | exact I]|].
    rewrite (take_total y_true) by exact Hidx. cbn [bind].
    pose proof (proj1 (Forall_forall _ _) Hranges r Hr) as Hr2.
    destruct (FittedLife_init_total
                (map (fun k => nth k y_true NaN) (range_indices r))
                (map (fun k => nth k y_pred NaN) (range_indices r))
                flag thr) as (life & ->).
    + rewrite length_map. unfold range_indices. rewrite length_seq. exact Hr2.
    + rewrite !length_map. reflexivity.
    + cbn [bind]. eexists. split; [reflexivity | exact I].
  - exact I.
  - exists lives. exact Hloop.
Qed.

End TotalFitter.

Example split_lives_example :
  @split_lives trivial_fitter
    (ints [3; 2; 5; 4; 3; 2; 1; 0]%Z) (ints [3; 2; 1; 5; 4; 3; 2; 1]%Z)
    None false None
  = Ok [@mkFittedLife trivial_fitter false 0 (ints [0; 1; 2; 3; 4; 5]%Z) tt tt
          None (ints [1; 5; 4; 3; 2; 1]%Z) (ints [5; 4; 3; 2; 1; 0]%Z)].
Proof. reflexivity. Qed.

(** A life whose predictions hold a [nan] is left out without a trace. *)
Example split_lives_nan_example :
  @split_lives trivial_fitter
    (ints [3; 2; 1; 0; 5; 4; 3; 2; 1; 0]%Z)
    ([Fin 3; Fin 2; NaN; Fin 0] ++ ints [5; 4; 3; 2; 1; 0]%Z)
    None false None
  = Ok [@mkFittedLife trivial_fitter false 0 (ints [0; 1; 2; 3; 4; 5]%Z) tt tt
          None (ints [5; 4; 3; 2; 1; 0]%Z) (ints [5; 4; 3; 2; 1; 0]%Z)].
Proof. reflexivity. Qed.

(** A sample whose true value sits on the edge shared by two bins is
    collected by both. *)
Lemma shared_edge_in_both_bins (edges yt : list num) (j k : nat) :
  k < length yt ->
  neqb (nth k yt NaN) (nth (j + 1) edges NaN) = true ->
  nleb (nth j edges NaN) (nth (j + 1) edges NaN) = true ->
  nleb (nth (j + 1) edges NaN) (nth (j + 1 + 1) edges NaN) = true ->
  In k (bin_samples edges yt j) /\ In k (bin_samples edges yt (j + 1)).
Proof.
  intros Hk Heq Hlo Hhi.
  destruct (nth k yt NaN) as [|y] eqn:Ey; [discriminate|].
  apply nleb_Fin in Hlo. destruct Hlo as (a & b & Ea & Eb & Hab).
  apply nleb_Fin in Hhi. destruct Hhi as (b' & c & Eb' & Ec & Hbc).
  rewrite Eb in Eb'. injection Eb' as <-.
  rewrite Eb in Heq. simpl in Heq. apply Qeq_bool_iff in Heq.
  split; apply bin_samples_In; rewrite Ey;
    (split; [exact Hk|]); rewrite ?Ea, ?Eb, ?Ec; simpl;
    split; apply Qle_bool_iff; lra.
Qed.

(** The fitter that accepts every point is total, and a signal whose lives
    keep two samples or more is split. *)
Lemma split_lives_total_example :
  exists lives,
    @split_lives trivial_fitter
      (ints [3; 2; 1; 0; 5; 4; 3; 2; 1; 0]%Z)
      (ints [3; 2; 1; 1; 4; 4; 3; 2; 2; 0]%Z) None false None = Ok lives.
Proof.
  apply (@split_lives_total trivial_fitter).
  - intros pwlr t v. exists tt. reflexivity.
  - intros pwlr. exists tt. reflexivity.
  - reflexivity.
  - discriminate.
  - repeat constructor.
Defined.

Lemma CVResults_init_total_example :
  exists cv, CVResults_init example_folds_true example_folds_pred 2 None = Ok cv.
Proof.
  apply CVResults_init_total.
  - split; [discriminate | repeat constructor; discriminate].
  - repeat constructor; discriminate.
Defined.

(** * Further properties of the module *)

(** ** The reconstructed time axis, step by step *)

(** Each entry of a running sum is the entry before it plus one term. *)
Lemma cumsum_nth_succ (l : list num) (acc : num) (i : nat) :
  i < length l ->
  nth (S i) (acc :: cumsum_from acc l) NaN
  = nadd (nth i (acc :: cumsum_from acc l) NaN) (nth i l NaN).
Proof.
  revert acc i; induction l as [|x l IH]; intros acc i Hi; [simpl in Hi; lia|].
  destruct i as [|i]; [reflexivity|].
  cbn [cumsum_from]. cbv zeta.
  change (nth (S (S i)) (acc :: nadd acc x :: cumsum_from (nadd acc x) l) NaN)
    with (nth (S i) (nadd acc x :: cumsum_from (nadd acc x) l) NaN).
  change (nth (S i) (acc :: nadd acc x :: cumsum_from (nadd acc x) l) NaN)
    with (nth i (nadd acc x :: cumsum_from (nadd acc x) l) NaN).
  change (nth (S i) (x :: l) NaN) with (nth i l NaN).
  apply IH. simpl in Hi. lia.
Qed.

(** X1.  Without threshold, on a life of two samples or more,
    [compute_time_feature] returns [degrading_start = 0] and a time axis
    with one entry per sample that starts at [0] and grows, from one entry
    to the next, by the differences of the true values taken from the end
    of the life backwards: [time[i+1] = time[i] + (y[n-2-i] - y[n-1-i])].
    On a life whose true values never increase the time axis never
    decreases. *)
Theorem compute_time_feature_steps (l : list num) :
  2 <= length l ->
  exists time,
    compute_time_feature (Arr1 l) None = Ok (0, time)
    /\ length time = length l
    /\ nth 0 time NaN = Fin 0
    /\ (forall i, i + 1 < length l ->
          nth (i + 1) time NaN
          = nadd (nth i time NaN)
                 (nsub (nth (length l - 2 - i) l NaN)
                       (nth (length l - 1 - i) l NaN)))
    /\ ((forall j, j + 1 < length l ->
           nleb (nth (j + 1) l NaN) (nth j l NaN) = true) ->
        forall i, i + 1 < length l ->
          nleb (nth i time NaN) (nth (i + 1) time NaN) = true).
Proof.
  intros Hlen. exists (reversed_time_axis l).
  assert (Hstep : forall i, i + 1 < length l ->
            nth (i + 1) (reversed_time_axis l) NaN
            = nadd (nth i (reversed_time_axis l) NaN)
                   (nsub (nth (length l - 2 - i) l NaN)
                         (nth (length l - 1 - i) l NaN))).
  { intros i Hi. unfold reversed_time_axis. cbn [cumsum].
    rewrite Nat.add_1_r, cumsum_nth_succ
      by (rewrite diff_length, length_rev; lia).
    f_equal. rewrite diff_nth by (rewrite length_rev; lia).
    rewrite !rev_nth by lia.
    replace (length l - S (S i)) with (length l - 2 - i) by lia.
    replace (length l - S i) with (length l - 1 - i) by lia.
    reflexivity. }
  split; [apply compute_time_feature_no_threshold; exact Hlen|].
  split.
  { unfold reversed_time_axis. rewrite cumsum_length. simpl.
    rewrite diff_length, length_rev. lia. }
  split; [reflexivity|]. split; [exact Hstep|].
  intros Hmono.
  assert (Hdiff : forall i, i + 1 < length l ->
            exists d, nsub (nth (length l - 2 - i) l NaN)
                           (nth (length l - 1 - i) l NaN) = Fin d
                      /\ (0 <= d)%Q).
  { intros i Hi. pose proof (Hmono (length l - 2 - i) ltac:(lia)) as Hj.
    replace (length l - 2 - i + 1) with (length l - 1 - i) in Hj by lia.
    apply nleb_Fin in Hj. destruct Hj as (x & y & -> & -> & Hxy).
    exists (y - x)%Q. split; [reflexivity | lra]. }
  assert (Hfin : forall i, i < length l ->
            exists t, nth i (reversed_time_axis l) NaN = Fin t).
  { induction i as [|i IH]; intros Hi; [exists 0%Q; reflexivity|].
    destruct (IH ltac:(lia)) as (t & Ht).
    destruct (Hdiff i ltac:(lia)) as (d & Hd & _).
    exists (t + d)%Q. rewrite <- Nat.add_1_r, Hstep, Ht, Hd by lia.
    reflexivity. }
  intros i Hi. destruct (Hfin i ltac:(lia)) as (t & Ht).
  destruct (Hdiff i Hi) as (d & Hd & Hd0).
  rewrite Hstep, Ht, Hd by exact Hi.
  cbn [nadd lift2 nleb cmp2]. apply Qle_bool_iff. lra.
Qed.

(** The life [10 4 3 0]: the steps are [3], [1] and [6], in this order. *)
Lemma compute_time_feature_steps_example :
  exists time,
    compute_time_feature (Arr1 (ints [10; 4; 3; 0]%Z)) None = Ok (0, time)
    /\ time = ints [0; 3; 4; 10]%Z
    /\ forall i, i + 1 < 4 ->
         nleb (nth i time NaN) (nth (i + 1) time NaN) = true.
Proof.
  destruct (compute_time_feature_steps (ints [10; 4; 3; 0]%Z)) as
    (time & Htime & _ & _ & _ & Hmono); [simpl; lia|].
  exists time. split; [exact Htime|]. split.
  - assert (E : Ok (0, time) = Ok (0, ints [0; 3; 4; 10]%Z))
      by (rewrite <- Htime; reflexivity).
    injection E as E. exact E.
  - apply Hmono. intros j Hj.
    destruct j as [|[|[|j]]]; [reflexivity | reflexivity | reflexivity|].
    simpl in Hj. lia.
Defined.

(** ** What the constructor and [split_lives] establish *)

Lemma _degrading_start_lt (l : list num) (thr : option num) :
  l <> [] -> _degrading_start (Arr1 l) thr < length l.
Proof.
  intros Hl. assert (Hpos : 0 < length l) by (destruct l; [congruence | simpl; lia]).
  unfold _degrading_start. destruct thr as [thr|]; [|exact Hpos].
  cbn [nd_where].
  destruct (np_where (map (fun y => nltb y thr) l)) as [|i w] eqn:Ew; [exact Hpos|].
  assert (Hi : In i (np_where (map (fun y => nltb y thr) l)))
    by (rewrite Ew; left; reflexivity).
  apply np_where_lt in Hi. rewrite length_map in Hi. exact Hi.
Qed.

Section ConstructorInvariant.
Context `{Fitter}.

(** With [time=None] the stored time axis is the one
    [compute_time_feature] computes from the true values. *)
Lemma FittedLife_init_computed_time (yt yp : list num) (flag : bool)
    (thr : option num) (self : FittedLife) :
  FittedLife_init yt yp None flag thr = Ok self ->
  compute_time_feature (Arr1 yt) thr = Ok (degrading_start self, time self)
  /\ y_true self = yt /\ y_pred self = yp
  /\ RUL_threshold self = thr /\ fit_line_not_increasing self = flag.
Proof.
  intros Hinit. pose proof (FittedLife_init_Ok _ _ _ _ _ _ Hinit)
    as (Et & Ep & Ht1 & _).
  unfold FittedLife_init in Hinit. rewrite (squeeze_1d yt Ht1) in Hinit.
  apply bind_Ok in Hinit. destruct Hinit as ((ds & time0) & Htime & Hinit).
  apply bind_Ok in Hinit. destruct Hinit as (fp & _ & Hinit).
  apply bind_Ok in Hinit. destruct Hinit as (ft & _ & Hinit).
  apply bind_Ok in Hinit. destruct Hinit as (yp' & _ & Hinit).
  apply bind_Ok in Hinit. destruct Hinit as (yt' & _ & [= <-]).
  cbn [degrading_start time RUL_threshold fit_line_not_increasing].
  repeat split; assumption.
Qed.

Lemma compute_time_feature_length (l : list num) (thr : option num) (ds : nat)
    (time : list num) :
  compute_time_feature (Arr1 l) thr = Ok (ds, time) ->
  length time = length l /\ ds = _degrading_start (Arr1 l) thr.
Proof.
  unfold compute_time_feature. intros Hc. cbv zeta in Hc.
  apply bind_Ok in Hc. destruct Hc as (tm & Htm & [= <- <-]).
  split; [|reflexivity].
  assert (Hlen : length l <> 1).
  { intros H1. destruct l as [|x [|y l]]; try discriminate H1.
    unfold _compute_time in Htm. simpl in Htm. discriminate Htm. }
  rewrite _compute_time_1d in Htm by exact Hlen. injection Htm as <-.
  rewrite cumsum_length. apply time_steps_length.
Qed.

(** X2.  Every life [split_lives] returns (with the time axis computed)
    has two samples or more, as many predictions and time stamps as true
    values, no [nan] among the predictions, a [degrading_start] that is an
    index of the life, and carries the threshold and the flag of the call. *)
Theorem split_lives_invariant (signal predictions : list num) (thr : option num)
    (flag : bool) (lives : list FittedLife) :
  split_lives signal predictions thr flag None = Ok lives ->
  Forall (fun self =>
            2 <= length (y_true self)
            /\ length (y_pred self) = length (y_true self)
            /\ length (time self) = length (y_true self)
            /\ degrading_start self < length (y_true self)
            /\ existsb isnan (y_pred self) = false
            /\ RUL_threshold self = thr
            /\ fit_line_not_increasing self = flag)
         lives.
Proof.
  intros Hs. apply split_lives_Ok in Hs.
  destruct Hs as (ranges & Hranges & Hall).
  assert (Hne : Forall (fun r => 0 < range_len r)
                  (filter (fun r => negb (has_nan predictions r)) ranges)).
  { apply Forall_forall. intros r Hr. apply filter_In in Hr.
    apply (split_lives_indices_nonempty signal ranges r Hranges), Hr. }
  induction Hall as [|r life rs ls Hbuilt _ IH]; constructor.
  - inversion Hne as [|? ? Hr _]; subst.
    destruct Hbuilt as (yt & yp & Hyt & Hyp & Hnan & Hinit).
    pose proof (FittedLife_init_Ok _ _ _ _ _ _ Hinit) as (_ & _ & Ht1 & _).
    apply FittedLife_init_computed_time in Hinit.
    destruct Hinit as (Htime & Et & Ep & Ethr & Eflag).
    apply compute_time_feature_length in Htime. destruct Htime as (Hlen & Hds).
    apply take_length in Hyt, Hyp.
    unfold range_indices in Hyt, Hyp. rewrite length_seq in Hyt, Hyp.
    rewrite Et, Ep, Hlen, Hds.
    assert (Hyt0 : yt <> []) by (intros ->; simpl in Hyt; lia).
    repeat split; try assumption; try lia.
    apply _degrading_start_lt. exact Hyt0.
  - apply IH. inversion Hne; assumption.
Qed.

End ConstructorInvariant.

Lemma split_lives_invariant_example :
  Forall (fun self : @FittedLife trivial_fitter =>
            2 <= length (y_true self)
            /\ length (y_pred self) = length (y_true self)
            /\ length (time self) = length (y_true self)
            /\ degrading_start self < length (y_true self)
            /\ existsb isnan (y_pred self) = false
            /\ RUL_threshold self = None
            /\ fit_line_not_increasing self = false)
         [@mkFittedLife trivial_fitter false 0 (ints [0; 1; 2; 3; 4; 5]%Z) tt tt
            None (ints [1; 5; 4; 3; 2; 1]%Z) (ints [5; 4; 3; 2; 1; 0]%Z)].
Proof.
  exact (@split_lives_invariant trivial_fitter
           (ints [3; 2; 5; 4; 3; 2; 1; 0]%Z) (ints [3; 2; 1; 5; 4; 3; 2; 1]%Z)
           None false _ eq_refl).
Defined.

(** ** Unexploited lifetime along the horizon *)

Section UnexploitedLifetime.
Context `{Fitter}.

(** X4.  [unexploited_lifetime] does not decrease when the horizon grows:
    maintenance is scheduled earlier, so at least as much life is left
    unused.  It raises at one horizon only if it raises at every horizon. *)
Theorem unexploited_lifetime_monotone (self : FittedLife) (m1 m2 u1 : num) :
  nleb m1 m2 = true ->
  unexploited_lifetime self m1 = Ok u1 ->
  exists u2, unexploited_lifetime self m2 = Ok u2 /\ nleb u1 u2 = true.
Proof.
  intros Hm. rewrite !unexploited_lifetime_unfold.
  destruct (predicted_end_of_life self) as [p|e]; simpl; [|discriminate].
  destruct (end_of_life self) as [eol|e]; simpl; [|discriminate].
  intros [= <-]. eexists. split; [reflexivity|].
  apply nleb_Fin in Hm. destruct Hm as (a & b & -> & -> & Hab).
  destruct p as [|p], eol as [|eol]; try reflexivity.
  cbn [nsub lift2 nltb cmp2].
  destruct (Qlt_bool (p - a) eol) eqn:E1, (Qlt_bool (p - b) eol) eqn:E2;
    cbn [nleb cmp2 nsub lift2]; apply Qle_bool_iff;
    try apply Qlt_bool_iff in E1; try apply Qlt_bool_iff in E2;
    try apply Qlt_bool_false_iff in E1; try apply Qlt_bool_false_iff in E2;
    lra.
Qed.

End UnexploitedLifetime.

Lemma unexploited_lifetime_monotone_example :
  exists u2,
    unexploited_lifetime example_life (Fin 3) = Ok u2
    /\ nleb (Fin 1) u2 = true.
Proof.
  exact (unexploited_lifetime_monotone example_life (Fin 1) (Fin 3) (Fin 1)
           eq_refl eq_refl).
Defined.

(** ** The sweeps of unexploited lifetime and unexpected breaks *)

Lemma inject_nat_succ (n : nat) :
  (inject_Z (Z.of_nat (S n)) == inject_Z (Z.of_nat n) + 1)%Q.
Proof. rewrite Nat2Z.inj_succ. unfold Z.succ. rewrite inject_Z_plus. reflexivity. Qed.

Lemma inject_nat_pos (n : nat) : 0 < n -> (0 < inject_Z (Z.of_nat n))%Q.
Proof.
  intros Hn. change 0%Q with (inject_Z 0). rewrite <- Zlt_Qlt. lia.
Qed.

Lemma fold_nadd_between (lo hi : Q) (l : list num) (a : Q) :
  Forall (between lo hi) l ->
  exists s,
    fold_left nadd l (Fin a) = Fin s
    /\ (a + inject_Z (Z.of_nat (length l)) * lo <= s)%Q
    /\ (s <= a + inject_Z (Z.of_nat (length l)) * hi)%Q.
Proof.
  revert a; induction l as [|x l IH]; intros a Hl.
  - exists a. cbn [length fold_left Z.of_nat]. change (inject_Z 0) with 0%Q.
    split; [reflexivity | split; lra].
  - inversion Hl as [|? ? (q & -> & Hq) Hl']; subst.
    destruct (IH (a + q)%Q Hl') as (s & Hs & Hlo & Hhi).
    exists s. split; [exact Hs|].
    pose proof (inject_nat_succ (length l)) as Hsucc.
    cbn [length]. rewrite Hsucc.
    set (N := inject_Z (Z.of_nat (length l))) in *. clearbody N.
    assert (E1 : ((N + 1) * lo == N * lo + lo)%Q) by ring.
    assert (E2 : ((N + 1) * hi == N * hi + hi)%Q) by ring.
    rewrite E1, E2.
    set (P := (N * lo)%Q) in *. set (R := (N * hi)%Q) in *.
    clearbody P R. split; lra.
Qed.

(** The mean of values within bounds is within the bounds. *)
Lemma mean_between (lo hi : Q) (l : list num) :
  l <> [] -> Forall (between lo hi) l -> between lo hi (mean l).
Proof.
  intros Hl Hall. destruct l as [|x l]; [congruence|].
  destruct (fold_nadd_between lo hi (x :: l) 0 Hall) as (s & Hs & Hlo & Hhi).
  unfold mean, nsum. rewrite Hs. unfold num_of_nat. cbn [lift2].
  pose proof (inject_nat_pos (length (x :: l))) as Hpos.
  set (N := inject_Z (Z.of_nat (length (x :: l)))) in *.
  assert (HN : (0 < N)%Q) by (apply Hpos; simpl; lia).
  exists (s / N)%Q. split; [reflexivity|]. split.
  - apply Qle_shift_div_l; [exact HN | lra].
  - apply Qle_shift_div_r; [exact HN | lra].
Qed.

Lemma fold_nadd_NaN (l : list num) : fold_left nadd l NaN = NaN.
Proof. induction l as [|x l IH]; [reflexivity | exact IH]. Qed.

Lemma fold_nadd_with_NaN (l : list num) (a : num) :
  In NaN l -> fold_left nadd l a = NaN.
Proof.
  revert a; induction l as [|x l IH]; intros a Hin; [destruct Hin|].
  destruct Hin as [->|Hin]; simpl.
  - destruct a; apply fold_nadd_NaN.
  - apply IH. exact Hin.
Qed.

(** One [nan] among the values makes their mean [nan]. *)
Lemma mean_with_NaN (l : list num) : In NaN l -> mean l = NaN.
Proof.
  intros Hin. destruct l as [|x l]; [reflexivity|].
  unfold mean, nsum. rewrite (fold_nadd_with_NaN (x :: l) (Fin 0) Hin).
  reflexivity.
Qed.

Lemma nonneg_nleb (a : num) : nonneg a -> nleb (Fin 0) a = true.
Proof. intros (q & -> & Hq). apply Qle_bool_iff. exact Hq. Qed.

Section Sweeps.
Context `{Fitter}.

Lemma sweep_from_cv_values (metric : FittedLife -> num -> result num)
    (value : FittedLife -> num -> num) (lives : list (list FittedLife))
    (window_size : Z) (n : nat) :
  (forall r life m, In r lives -> In life r -> metric life m = Ok (value life m)) ->
  sweep_from_cv metric lives window_size n
  = Ok (linspace (Fin 0) (num_of_Z window_size) n,
        map (sweep_value value lives)
            (linspace (Fin 0) (num_of_Z window_size) n)).
Proof.
  intros Hmetric. unfold sweep_from_cv.
  rewrite (foldM_append _ (sweep_value value lives)); [reflexivity|].
  intros qq m _.
  rewrite (foldM_append _ (fun r => mean (map (fun life => value life m) r)));
    [reflexivity|].
  intros jj r Hr.
  rewrite (mapM_total _ (fun life => value life m))
    by (intros life Hl; apply (Hmetric r life m Hr Hl)).
  reflexivity.
Qed.

(** X5.  On lives that satisfy the invariant,
    [unexploited_lifetime_from_cv] raises nothing and returns the [n]
    horizons with, for each, the mean over the folds of the fold means of
    the unexploited lifetimes; the value is not negative when there is a
    fold and no fold is empty, and [nan] at every horizon as soon as one
    fold is empty. *)
Theorem unexploited_lifetime_from_cv_sweep (lives : list (list FittedLife))
    (window_size : Z) (n : nat) :
  Forall (Forall life_inv) lives ->
  let windows := linspace (Fin 0) (num_of_Z window_size) n in
  unexploited_lifetime_from_cv lives window_size n
  = Ok (windows, map (sweep_value unexploited_value lives) windows)
  /\ length (map (sweep_value unexploited_value lives) windows) = n
  /\ (lives <> [] -> Forall (fun r => r <> []) lives ->
      Forall (fun v => nleb (Fin 0) v = true)
             (map (sweep_value unexploited_value lives) windows))
  /\ (In [] lives ->
      map (sweep_value unexploited_value lives) windows = repeat NaN n).
Proof.
  intros Hinv windows. split; [|split; [|split]].
  - apply sweep_from_cv_values. intros r life m Hr Hl.
    apply unexploited_lifetime_value.
    exact (proj1 (Forall_forall _ _)
             (proj1 (Forall_forall _ _) Hinv r Hr) life Hl).
  - rewrite length_map. apply linspace_length.
  - intros Hne Hfolds. apply Forall_map, Forall_forall. intros m _.
    apply nonneg_nleb.
    assert (Hb : forall l, l <> [] -> Forall nonneg l -> nonneg (mean l)).
    { intros l Hl Hall. destruct l as [|x l]; [congruence|].
      unfold mean, nsum.
      assert (Hs : nonneg (fold_left nadd (x :: l) (Fin 0))).
      { assert (Hgen : forall l a, nonneg a -> Forall nonneg l ->
                                   nonneg (fold_left nadd l a)).
        { clear. induction l as [|y l IH]; intros a Ha Hl; [exact Ha|].
          inversion Hl as [|? ? (q & -> & Hq) Hl']; subst.
          destruct Ha as (p & -> & Hp). apply IH; [|exact Hl'].
          exists (p + q)%Q. split; [reflexivity | lra]. }
        apply Hgen; [exists 0%Q; split; [reflexivity | lra] | exact Hall]. }
      destruct Hs as (s & -> & Hs).
      pose proof (inject_nat_pos (length (x :: l))) as Hpos.
      eexists. split; [reflexivity|].
      apply Qle_shift_div_l; [apply Hpos; simpl; lia | lra]. }
    unfold sweep_value. apply Hb.
    + destruct lives; [congruence | discriminate].
    + apply Forall_map, Forall_forall. intros r Hr. apply Hb.
      * pose proof (proj1 (Forall_forall _ _) Hfolds r Hr) as Hr'.
        destruct r; [congruence | discriminate].
      * apply Forall_map, Forall_forall. intros life _.
        apply unexploited_value_nonneg.
  - intros Hempty.
    transitivity (repeat NaN (length windows));
      [|f_equal; apply linspace_length].
    rewrite <- map_const.
    apply map_ext. intros m. unfold sweep_value. apply mean_with_NaN.
    apply in_map_iff. exists []. split; [reflexivity | exact Hempty].
Qed.

(** X6.  On non-empty folds of lives that satisfy the invariant,
    [unexpected_breaks_from_cv] raises nothing and returns, for each of the
    [n] horizons, a fraction between 0 and 1. *)
Theorem unexpected_breaks_from_cv_fraction (lives : list (list FittedLife))
    (window_size : Z) (n : nat) :
  lives <> [] ->
  Forall (fun r => r <> [] /\ Forall life_inv r) lives ->
  exists qq,
    unexpected_breaks_from_cv lives window_size n
    = Ok (linspace (Fin 0) (num_of_Z window_size) n, qq)
    /\ length qq = n
    /\ Forall (between 0 1) qq.
Proof.
  intros Hne Hlives. eexists. split; [|split].
  - apply (sweep_from_cv_values _ (fun life m => num_of_bool (break_value life m))).
    intros r life m Hr Hl.
    destruct (proj1 (Forall_forall _ _) Hlives r Hr) as (_ & Hinv).
    rewrite (unexpected_break_value life m
               (proj1 (Forall_forall _ _) Hinv life Hl)).
    reflexivity.
  - rewrite length_map. apply linspace_length.
  - apply Forall_map, Forall_forall. intros m _. unfold sweep_value.
    apply mean_between.
    + destruct lives; [congruence | discriminate].
    + apply Forall_map, Forall_forall. intros r Hr.
      destruct (proj1 (Forall_forall _ _) Hlives r Hr) as (Hr' & _).
      apply mean_between.
      * destruct r; [congruence | discriminate].
      * apply Forall_map, Forall_forall. intros life _.
        destruct (break_value life m); [exists 1%Q | exists 0%Q];
          (split; [reflexivity | lra]).
Qed.

End Sweeps.

Lemma unexploited_lifetime_from_cv_sweep_example :
  exists qq,
    unexploited_lifetime_from_cv [[example_life]; []] 2 3
    = Ok (linspace (Fin 0) (Fin 2) 3, qq)
    /\ qq = repeat NaN 3.
Proof.
  assert (Hinv : Forall (Forall life_inv) [[example_life]; []]).
  { constructor; [constructor; [apply example_life_inv | constructor]|].
    constructor; constructor. }
  destruct (unexploited_lifetime_from_cv_sweep [[example_life]; []] 2 3 Hinv)
    as (Hsweep & _ & _ & Hnan).
  eexists. split; [exact Hsweep|]. apply Hnan. right. left. reflexivity.
Defined.

Lemma unexpected_breaks_from_cv_fraction_example :
  exists qq,
    unexpected_breaks_from_cv [[example_life; example_life]] 2 3
    = Ok (linspace (Fin 0) (Fin 2) 3, qq)
    /\ length qq = 3
    /\ Forall (between 0 1) qq.
Proof.
  apply (unexpected_breaks_from_cv_fraction [[example_life; example_life]] 2 3).
  - discriminate.
  - exact example_fold_inv.
Defined.

(** ** The top-level sweeps *)

Lemma mapM_Ok_Forall2 {A B : Type} (f : A -> result B) (xs : list A) (ys : list B) :
  mapM f xs = Ok ys -> Forall2 (fun x y => f x = Ok y) xs ys.
Proof.
  revert ys; induction xs as [|x xs IH]; intros ys; simpl.
  - intros [= <-]. constructor.
  - intros Hm. apply bind_Ok in Hm. destruct Hm as (y & Hy & Hm).
    apply bind_Ok in Hm. destruct Hm as (ys' & Hys & [= <-]).
    constructor; [exact Hy | apply IH; exact Hys].
Qed.

Section TopLevelSweeps.
Context `{Fitter}.

(** The lives of every fold that has been split satisfy the invariant. *)
Lemma split_folds_inv (elements : list element) (bb : list (list FittedLife)) :
  mapM split_lives_from_results elements = Ok bb ->
  Forall (Forall life_inv) bb.
Proof.
  intros Hm. apply mapM_Ok_Forall2 in Hm.
  induction Hm as [|x r xs rs Hx _ IH]; constructor; [|exact IH].
  destruct x as [fold|name]; [|discriminate Hx].
  apply (split_lives_inv _ _ _ _ _ _ Hx).
Qed.

(** X7.  The module-level [unexploited_lifetime] and [unexpected_breaks]
    pass on an exception of the splitting and otherwise return: the
    horizons, and for each horizon the mean over the folds of the fold
    means of the metric ([nan] for a fold without life). *)
Theorem top_level_sweeps (d : results) (window_size : Z) (step : nat) :
  results_unexploited_lifetime d window_size step
  = match mapM split_lives_from_results (iterate d) with
    | Ok bb =>
        Ok (linspace (Fin 0) (num_of_Z window_size) step,
            map (sweep_value unexploited_value bb)
                (linspace (Fin 0) (num_of_Z window_size) step))
    | Raise e => Raise e
    end
  /\ unexpected_breaks d window_size step
     = match mapM split_lives_from_results (iterate d) with
       | Ok bb =>
           Ok (linspace (Fin 0) (num_of_Z window_size) step,
               map (sweep_value (fun life m => num_of_bool (break_value life m)) bb)
                   (linspace (Fin 0) (num_of_Z window_size) step))
       | Raise e => Raise e
       end.
Proof.
  unfold results_unexploited_lifetime, unexpected_breaks.
  destruct (mapM split_lives_from_results (iterate d)) as [bb|e] eqn:Ebb;
    [|split; reflexivity].
  pose proof (split_folds_inv _ _ Ebb) as Hinv. cbn [bind]. split.
  - apply sweep_from_cv_values. intros r life m Hr Hl.
    apply unexploited_lifetime_value.
    exact (proj1 (Forall_forall _ _)
             (proj1 (Forall_forall _ _) Hinv r Hr) life Hl).
  - apply sweep_from_cv_values. intros r life m Hr Hl.
    rewrite (unexpected_break_value life m
               (proj1 (Forall_forall _ _)
                  (proj1 (Forall_forall _ _) Hinv r Hr) life Hl)).
    reflexivity.
Qed.

(** A fold without life makes the value of every horizon [nan]. *)
Lemma sweep_value_empty_fold (value : FittedLife -> num -> num)
    (lives : list (list FittedLife)) (windows : list num) :
  In [] lives ->
  map (sweep_value value lives) windows = repeat NaN (length windows).
Proof.
  intros Hempty. rewrite <- map_const.
  apply map_ext. intros m. unfold sweep_value. apply mean_with_NaN.
  apply in_map_iff. exists []. split; [reflexivity | exact Hempty].
Qed.

(** X8.  The three sweeps differ on a fold that holds no life.
    [metric_J_from_cv] raises [ValueError] as soon as there is a horizon to
    evaluate: [np.max] of the empty array of unexpected breaks.
    [unexpected_breaks_from_cv] and [unexploited_lifetime_from_cv] raise
    nothing and return [nan] at every horizon. *)
Theorem metric_J_from_cv_empty_fold (lives : list (list FittedLife))
    (window_size : Z) (n : nat) (q1 q2 : num) :
  In [] lives ->
  Forall (Forall life_inv) lives ->
  0 < n ->
  metric_J_from_cv lives window_size n q1 q2 = Raise ValueError
  /\ unexpected_breaks_from_cv lives window_size n
     = Ok (linspace (Fin 0) (num_of_Z window_size) n, repeat NaN n)
  /\ unexploited_lifetime_from_cv lives window_size n
     = Ok (linspace (Fin 0) (num_of_Z window_size) n, repeat NaN n).
Proof.
  intros Hempty Hinv Hn.
  assert (Hlife : forall r life, In r lives -> In life r -> life_inv life).
  { intros r life Hr Hl.
    exact (proj1 (Forall_forall _ _)
             (proj1 (Forall_forall _ _) Hinv r Hr) life Hl). }
  split; [|split].
  2:{ etransitivity.
      - apply (sweep_from_cv_values _
                 (fun life m => num_of_bool (break_value life m))).
        intros r life m Hr Hl.
        rewrite (unexpected_break_value life m (Hlife r life Hr Hl)).
        reflexivity.
      - rewrite (sweep_value_empty_fold _ lives _ Hempty), linspace_length.
        reflexivity. }
  2:{ etransitivity.
      - apply (sweep_from_cv_values _ unexploited_value).
        intros r life m Hr Hl.
        apply unexploited_lifetime_value. exact (Hlife r life Hr Hl).
      - rewrite (sweep_value_empty_fold _ lives _ Hempty), linspace_length.
        reflexivity. }
  clear Hlife. unfold metric_J_from_cv.
  assert (Hinner : forall m acc,
            foldM (fun J_of_m r =>
                     mean_J <- J_of_fold q1 q2 m r ;; Ok (J_of_m ++ [mean_J]))
                  acc lives = Raise ValueError).
  { intros m. induction lives as [|r rest IH]; intros acc; [destruct Hempty|].
    inversion Hinv as [|? ? Hr Hrest]; subst.
    destruct r as [|life r].
    - reflexivity.
    - cbn [foldM].
      rewrite (J_of_fold_cost q1 q2 m (life :: r)) by (discriminate || exact Hr).
      cbn [bind]. apply IH; [|exact Hrest].
      destruct Hempty as [Hbad|Hin]; [discriminate Hbad | exact Hin]. }
  pose proof (linspace_length (Fin 0) (num_of_Z window_size) n) as Hlen.
  destruct (linspace (Fin 0) (num_of_Z window_size) n) as [|m ms];
    [simpl in Hlen; lia|].
  cbn [foldM]. rewrite Hinner. reflexivity.
Qed.

End TopLevelSweeps.

Lemma metric_J_from_cv_empty_fold_example :
  metric_J_from_cv [[example_life]; []] 2 3 (Fin 1) (Fin 1) = Raise ValueError
  /\ unexpected_breaks_from_cv [[example_life]; []] 2 3
     = Ok (linspace (Fin 0) (num_of_Z 2) 3, repeat NaN 3)
  /\ unexploited_lifetime_from_cv [[example_life]; []] 2 3
     = Ok (linspace (Fin 0) (num_of_Z 2) 3, repeat NaN 3).
Proof.
  apply (metric_J_from_cv_empty_fold [[example_life]; []] 2 3 (Fin 1) (Fin 1)).
  - right. left. reflexivity.
  - constructor; [constructor; [apply example_life_inv | constructor]|].
    constructor; constructor.
  - lia.
Defined.

(** ** Sample weights and the mean absolute error *)

Lemma combine_samples (a b : list Q) :
  combine (samples a) (samples b)
  = map (fun p => (Fin (fst p), Fin (snd p))) (combine a b).
Proof.
  revert b; induction a as [|x a IH]; intros [|y b]; simpl; try reflexivity.
  f_equal. apply IH.
Qed.

Lemma broadcast2_samples (f : num -> num -> num) (g : Q -> Q -> Q)
    (a b : list Q) :
  (forall x y, f (Fin x) (Fin y) = Fin (g x y)) ->
  length a = length b ->
  broadcast2 f (samples a) (samples b)
  = Ok (samples (map (fun p => g (fst p) (snd p)) (combine a b))).
Proof.
  intros Hf Hlen. rewrite broadcast2_same_length
    by (unfold samples; rewrite !length_map; exact Hlen).
  rewrite combine_samples. unfold samples. rewrite !map_map.
  f_equal. apply map_ext. intros (x, y). apply Hf.
Qed.

Lemma nabs_samples (a : list Q) : map nabs (samples a) = samples (map Qabs a).
Proof. unfold samples. rewrite !map_map. reflexivity. Qed.

Lemma clip_below_samples (c : Q) (a : list Q) :
  clip_below (Fin c) (samples a) = samples (map (fun y => Qmax y c) a).
Proof. unfold clip_below, samples. rewrite !map_map. reflexivity. Qed.

Lemma mapM_map {A B C : Type} (f : B -> result C) (h : A -> B) (l : list A) :
  mapM f (map h l) = mapM (fun x => f (h x)) l.
Proof.
  induction l as [|x l IH]; simpl; [reflexivity | rewrite IH; reflexivity].
Qed.

Lemma vdiv_samples (a b : list Q) :
  length a = length b ->
  Forall (fun y => (0 < y)%Q) b ->
  vdiv (samples a) (samples b)
  = Ok (samples (map (fun p => fst p / snd p)%Q (combine a b))).
Proof.
  intros Hlen Hpos. unfold vdiv, broadcast_pairs.
  assert (Hl : length (samples a) = length (samples b))
    by (unfold samples; rewrite !length_map; exact Hlen).
  rewrite Hl, Nat.eqb_refl. cbn [bind]. rewrite combine_samples, mapM_map.
  rewrite (mapM_total _ (fun p => Fin (fst p / snd p)%Q)).
  - unfold samples. rewrite map_map. reflexivity.
  - intros (x, y) Hin. apply in_combine_r in Hin.
    pose proof (proj1 (Forall_forall _ _) Hpos y Hin) as Hy. cbv beta in Hy.
    cbn [fst snd ndiv].
    destruct (Qeq_bool y 0) eqn:E; [|reflexivity].
    apply Qeq_bool_iff in E. lra.
Qed.

Lemma length_combine_same {A B : Type} (a : list A) (b : list B) :
  length a = length b -> length (combine a b) = length a.
Proof. intros Hl. rewrite length_combine. lia. Qed.

(** The relative weights of finite samples. *)
Lemma relative_weights (yts yps : list Q) (c : Q) :
  length yts = length yps -> (0 < c)%Q ->
  let w := map (fun p => Qabs (fst p - snd p) / Qmax (fst p) c)%Q
               (combine yts yps) in
  compute_sample_weight (Some "relative"%string) (samples yts) (samples yps)
    (Fin c) = Ok (SampleWeights (samples w))
  /\ length w = length yts
  /\ Forall (fun q => (0 <= q)%Q) w.
Proof.
  intros Hlen Hc w. split; [|split].
  - unfold compute_sample_weight. cbn [String.eqb Ascii.eqb Bool.eqb].
    unfold vsub. rewrite (broadcast2_samples nsub Qminus) by (reflexivity || exact Hlen).
    cbn [bind]. rewrite nabs_samples, clip_below_samples.
    rewrite vdiv_samples.
    + cbn [bind]. unfold w. do 2 f_equal.
      rewrite map_map.
      assert (Hgen : forall a b : list Q, length a = length b ->
                map (fun p => fst p / snd p)%Q
                    (combine (map (fun p => Qabs (fst p - snd p)) (combine a b))
                             (map (fun y => Qmax y c) a))
                = map (fun p => Qabs (fst p - snd p) / Qmax (fst p) c)%Q
                      (combine a b)).
      { clear. induction a as [|x a IH]; intros [|y b] Hl; simpl in *;
          try reflexivity; try lia.
        f_equal. apply IH. lia. }
      rewrite (Hgen yts yps Hlen). reflexivity.
    + rewrite !length_map. apply length_combine_same. exact Hlen.
    + apply Forall_map, Forall_forall. intros y _.
      pose proof (Q.le_max_r y c). lra.
  - unfold w. rewrite length_map. apply length_combine_same. exact Hlen.
  - apply Forall_map, Forall_forall. intros (y, p) _. cbn [fst snd].
    apply Qle_shift_div_l.
    + pose proof (Q.le_max_r y c). lra.
    + pose proof (Qabs_nonneg (y - p)). lra.
Qed.

(** Any policy but ["relative"] gives the weight [1]. *)
Lemma uniform_weight (other : option string) (y_true y_pred : list num)
    (c : num) :
  other <> Some "relative"%string ->
  compute_sample_weight other y_true y_pred c = Ok UniformWeight.
Proof.
  intros Hother. unfold compute_sample_weight.
  destruct other as [name|]; [|reflexivity].
  destruct (String.eqb_spec name "relative"); [congruence | reflexivity].
Qed.

Lemma samples_nth (ys : list Q) (i : nat) :
  i < length ys -> nth i (samples ys) NaN = Fin (nth i ys 0%Q).
Proof.
  intros Hi. unfold samples.
  rewrite (nth_indep _ NaN (Fin 0)) by (rewrite length_map; exact Hi).
  apply (map_nth Fin).
Qed.

(** X9.  With the ["relative"] policy, finite sequences of equal length and
    a positive [c], [compute_sample_weight] raises nothing and returns one
    weight per sample, the quotient [|true - pred| / max(true, c)], which is
    not negative; no divisor is zero, since the clamp keeps each at [c] or
    above.  Any other policy gives the weight [1]. *)
Theorem compute_sample_weight_relative (yts yps : list Q) (c : Q) :
  length yts = length yps -> (0 < c)%Q ->
  (exists ws,
      compute_sample_weight (Some "relative"%string) (samples yts)
        (samples yps) (Fin c) = Ok (SampleWeights ws)
      /\ length ws = length yts
      /\ (forall i, i < length yts ->
            ndiv (nabs (nsub (Fin (nth i yts 0%Q)) (Fin (nth i yps 0%Q))))
                 (nmax (Fin (nth i yts 0%Q)) (Fin c))
            = Ok (nth i ws NaN))
      /\ Forall (fun w => nleb (Fin 0) w = true) ws)
  /\ forall other,
       other <> Some "relative"%string ->
       compute_sample_weight other (samples yts) (samples yps) (Fin c)
       = Ok UniformWeight.
Proof.
  intros Hlen Hc.
  destruct (relative_weights yts yps c Hlen Hc) as (Hw & Hlw & Hnn).
  split; [|intros other Hother; apply uniform_weight; exact Hother].
  pose (g := (fun p : Q * Q => Qabs (fst p - snd p) / Qmax (fst p) c)%Q).
  assert (Hlg : length (map g (combine yts yps)) = length yts)
    by (rewrite length_map; apply length_combine_same; exact Hlen).
  exists (samples (map g (combine yts yps))).
  split; [exact Hw|]. split; [unfold samples; rewrite length_map; exact Hlg|].
  split.
  - intros i Hi. rewrite samples_nth by (rewrite Hlg; exact Hi).
    rewrite (nth_indep (map g (combine yts yps)) 0%Q (g (0%Q, 0%Q)))
      by (rewrite Hlg; exact Hi).
    rewrite (map_nth g), combine_nth by exact Hlen.
    unfold g. cbn [fst snd nsub nabs nmax lift2 ndiv].
    destruct (Qeq_bool (Qmax (nth i yts 0%Q) c) 0) eqn:E; [|reflexivity].
    apply Qeq_bool_iff in E.
    pose proof (Q.le_max_r (nth i yts 0%Q) c). lra.
  - unfold samples. apply Forall_map, Forall_forall. intros q Hq.
    apply Qle_bool_iff.
    exact (proj1 (Forall_forall _ _) Hnn q Hq).
Qed.

Lemma compute_sample_weight_relative_example :
  exists ws,
    compute_sample_weight (Some "relative"%string)
      (samples [2; 0]%Q) (samples [1; 3]%Q) default_c = Ok (SampleWeights ws)
    /\ length ws = 2
    /\ Forall (fun w => nleb (Fin 0) w = true) ws.
Proof.
  destruct (proj1 (compute_sample_weight_relative [2; 0]%Q [1; 3]%Q (9 # 10)
                     eq_refl eq_refl)) as (ws & Hws & Hl & _ & Hnn).
  exists ws. split; [exact Hws|]. split; [exact Hl | exact Hnn].
Defined.

Lemma option_eq_relative (sample_weight : option string) :
  sample_weight = Some "relative"%string
  \/ sample_weight <> Some "relative"%string.
Proof.
  destruct sample_weight as [name|]; [|right; discriminate].
  destruct (String.eqb_spec name "relative") as [->|Hne];
    [left; reflexivity | right; congruence].
Qed.

Lemma fold_nadd_samples (l : list Q) (a : Q) :
  fold_left nadd (samples l) (Fin a) = Fin (fold_left Qplus l a).
Proof.
  revert a; induction l as [|x l IH]; intros a; [reflexivity|].
  simpl. apply IH.
Qed.

Lemma fold_Qplus_nonneg (l : list Q) (a : Q) :
  Forall (fun q => (0 <= q)%Q) l -> (a <= fold_left Qplus l a)%Q.
Proof.
  revert a; induction l as [|x l IH]; intros a Hl; simpl; [lra|].
  inversion Hl as [|? ? Hx Hl']; subst. specialize (IH (a + x)%Q Hl'). lra.
Qed.

Lemma fold_Qplus_zero (l : list Q) (a : Q) :
  Forall (fun q => (q == 0)%Q) l -> (fold_left Qplus l a == a)%Q.
Proof.
  revert a; induction l as [|x l IH]; intros a Hl; simpl; [reflexivity|].
  inversion Hl as [|? ? Hx Hl']; subst. rewrite (IH (a + x)%Q Hl'). lra.
Qed.

(** The mean of finite values that are not negative: finite, not negative,
    and zero when all the values are. *)
Lemma mean_samples_nonneg (l : list Q) :
  l <> [] -> Forall (fun q => (0 <= q)%Q) l ->
  exists q, mean (samples l) = Fin q /\ (0 <= q)%Q
            /\ (Forall (fun x => (x == 0)%Q) l -> (q == 0)%Q).
Proof.
  intros Hl Hnn. destruct l as [|x l]; [congruence|].
  unfold mean, nsum. change (samples (x :: l)) with (Fin x :: samples l).
  change (Fin x :: samples l) with (samples (x :: l)).
  rewrite fold_nadd_samples. unfold num_of_nat. cbn [lift2].
  assert (Hlen : length (samples (x :: l)) = length (x :: l))
    by (unfold samples; apply length_map).
  rewrite Hlen.
  pose proof (inject_nat_pos (length (x :: l))) as Hpos.
  set (N := inject_Z (Z.of_nat (length (x :: l)))) in *.
  assert (HN : (0 < N)%Q) by (apply Hpos; simpl; lia).
  eexists. split; [reflexivity|]. split.
  - apply Qle_shift_div_l; [exact HN|].
    pose proof (fold_Qplus_nonneg (x :: l) 0 Hnn). lra.
  - intros Hz. rewrite (fold_Qplus_zero (x :: l) 0 Hz).
    field. lra.
Qed.

Lemma in_combine_same {A : Type} (l : list A) (x y : A) :
  In (x, y) (combine l l) -> x = y.
Proof.
  induction l as [|a l IH]; simpl; [tauto|].
  intros [[= <- <-]|Hin]; [reflexivity | apply IH; exact Hin].
Qed.

Section MeanAbsoluteError.
Context `{Fitter}.

(** The mean absolute error of finite samples, as a rational. *)
Lemma mae_samples (self : FittedLife) (ys ps : list Q)
    (sample_weight : option string) :
  y_true self = samples ys -> y_pred self = samples ps ->
  length ys = length ps -> ys <> [] ->
  exists q,
    FittedLife_mae self sample_weight = Ok (Fin q)
    /\ (0 <= q)%Q
    /\ (ps = ys -> (q == 0)%Q).
Proof.
  intros Ey Ep Hlen Hys. unfold FittedLife_mae. rewrite Ey, Ep.
  set (A := map Qabs (map (fun p => fst p - snd p)%Q (combine ys ps))).
  assert (Hvsub : vsub (samples ys) (samples ps)
                  = Ok (samples (map (fun p => fst p - snd p)%Q (combine ys ps))))
    by (apply (broadcast2_samples nsub Qminus); [reflexivity | exact Hlen]).
  assert (HlenA : length A = length ys).
  { unfold A. rewrite !length_map. apply length_combine_same. exact Hlen. }
  assert (HA : Forall (fun q => (0 <= q)%Q) A).
  { unfold A. apply Forall_map, Forall_forall. intros q _. apply Qabs_nonneg. }
  assert (HAz : ps = ys -> Forall (fun q => (q == 0)%Q) A).
  { intros ->. unfold A. rewrite map_map. apply Forall_map, Forall_forall.
    intros (y, p) Hin. apply in_combine_same in Hin. subst p. cbn [fst snd].
    assert (Hz : (y - y == 0)%Q) by lra. rewrite Hz. reflexivity. }
  assert (Hmean : forall L : list Q,
            length L = length ys ->
            Forall (fun q => (0 <= q)%Q) L ->
            (ps = ys -> Forall (fun q => (q == 0)%Q) L) ->
            exists q, Ok (mean (samples L)) = Ok (Fin q) /\ (0 <= q)%Q
                      /\ (ps = ys -> (q == 0)%Q)).
  { intros L HL Hnn Hz.
    destruct (mean_samples_nonneg L) as (q & Hq & Hq0 & Hqz).
    - intros ->. destruct ys; [congruence | discriminate HL].
    - exact Hnn.
    - exists q. rewrite Hq. repeat split; [exact Hq0|].
      intros E. apply Hqz, Hz, E. }
  destruct (option_eq_relative sample_weight) as [->|Hother].
  - destruct (relative_weights ys ps (9 # 10) Hlen eq_refl)
      as (Hw & Hlw & Hwnn).
    unfold default_c. rewrite Hw. cbn [bind]. rewrite Hvsub. cbn [bind].
    rewrite nabs_samples. fold A. cbn [weighted].
    rewrite (broadcast2_samples nmul Qmult) by (reflexivity || congruence).
    cbn [bind]. apply Hmean.
    + rewrite length_map, length_combine_same by congruence. exact Hlw.
    + apply Forall_map, Forall_forall. intros (x, a) Hin. cbn [fst snd].
      apply Qmult_le_0_compat.
      * exact (proj1 (Forall_forall _ _) Hwnn x (in_combine_l _ _ _ _ Hin)).
      * exact (proj1 (Forall_forall _ _) HA a (in_combine_r _ _ _ _ Hin)).
    + intros E. apply Forall_map, Forall_forall. intros (x, a) Hin. cbn [fst snd].
      pose proof (proj1 (Forall_forall _ _) (HAz E) a (in_combine_r _ _ _ _ Hin))
        as Ha. cbv beta in Ha. rewrite Ha. ring.
  - unfold default_c. rewrite (uniform_weight sample_weight _ _ _ Hother).
    cbn [bind].
    rewrite Hvsub. cbn [bind]. rewrite nabs_samples. fold A. cbn [weighted bind].
    replace (map (nmul (Fin 1)) (samples A)) with (samples (map (Qmult 1) A))
      by (unfold samples; rewrite !map_map; reflexivity).
    apply Hmean.
    + rewrite length_map. exact HlenA.
    + apply Forall_map, Forall_forall. intros a Ha.
      pose proof (proj1 (Forall_forall _ _) HA a Ha) as Ha0. cbv beta in Ha0. lra.
    + intros E. apply Forall_map, Forall_forall. intros a Ha.
      pose proof (proj1 (Forall_forall _ _) (HAz E) a Ha) as Ha0.
      cbv beta in Ha0. rewrite Ha0. ring.
Qed.

(** X10.  On a life of finite sequences of equal, non-zero length, [mae]
    raises nothing and returns a value that is not negative, under either
    weighting policy, and zero when every prediction equals the true
    value. *)
Theorem FittedLife_mae_nonneg (self : FittedLife) (ys ps : list Q)
    (sample_weight : option string) :
  y_true self = samples ys -> y_pred self = samples ps ->
  length ys = length ps -> ys <> [] ->
  exists v,
    FittedLife_mae self sample_weight = Ok v
    /\ nleb (Fin 0) v = true
    /\ (ps = ys -> neqb v (Fin 0) = true).
Proof.
  intros Ey Ep Hlen Hys.
  destruct (mae_samples self ys ps sample_weight Ey Ep Hlen Hys)
    as (q & Hq & Hq0 & Hz).
  exists (Fin q). split; [exact Hq|]. split.
  - apply Qle_bool_iff. exact Hq0.
  - intros E. apply Qeq_bool_iff. exact (Hz E).
Qed.

End MeanAbsoluteError.

Lemma FittedLife_mae_nonneg_example :
  exists v,
    FittedLife_mae example_life (Some "relative"%string) = Ok v
    /\ nleb (Fin 0) v = true
    /\ neqb v (Fin 0) = true.
Proof.
  destruct (FittedLife_mae_nonneg example_life [1; 0]%Q [1; 0]%Q
              (Some "relative"%string) eq_refl eq_refl eq_refl)
    as (v & Hv & Hnn & Hz); [discriminate|].
  exists v. split; [exact Hv|]. split; [exact Hnn | apply Hz; reflexivity].
Defined.

(** ** The falling line of [compute_rul_line] *)

Lemma list_set_nth {A : Type} (l l' : list A) (i : nat) (v d : A) :
  list_set l i v = Some l' ->
  length l' = length l
  /\ forall k, nth k l' d = if k =? i then v else nth k l d.
Proof.
  revert i l'; induction l as [|x l IH]; intros i l' Hs; [discriminate|].
  destruct i as [|i]; simpl in Hs.
  - injection Hs as <-. split; [reflexivity|]. intros [|k]; reflexivity.
  - destruct (list_set l i v) as [l''|] eqn:E; [|discriminate].
    injection Hs as <-. destruct (IH i l'' E) as (Hlen & Hnth).
    split; [simpl; congruence|]. intros [|k]; [reflexivity | apply Hnth].
Qed.

(** The loop of [compute_rul_line] from index [k] on, over the default
    steps: the entries up to [k] are computed, the others still zero. *)
Lemma rul_line_loop_steps (n len k : nat) (z : list num) :
  k + len = n - 1 ->
  length z = n ->
  0 < n ->
  (forall i, k < i < n -> nth i z NaN = Fin 0) ->
  (forall i, i < k ->
             nth (i + 1) z NaN
             = pymax (nadd (nth i z NaN) (Fin (-1))) (Fin 0)) ->
  exists z',
    rul_line_loop (repeat (Fin (-1)) n) z (seq k len) = Ok z'
    /\ length z' = n
    /\ nth 0 z' NaN = nth 0 z NaN
    /\ forall i, i + 1 < n ->
                 nth (i + 1) z' NaN
                 = pymax (nadd (nth i z' NaN) (Fin (-1))) (Fin 0).
Proof.
  revert k z; induction len as [|len IH]; intros k z Hk Hz Hn Hrest Hdone.
  - exists z. repeat split; try assumption; try reflexivity.
    intros i Hi. apply Hdone. lia.
  - cbn [seq rul_line_loop].
    rewrite (getitem_nth z k NaN) by lia. cbn [bind].
    assert (Hstep : getitem (repeat (Fin (-1)) n) k = Ok (Fin (-1))).
    { unfold getitem. rewrite nth_error_repeat by lia. reflexivity. }
    rewrite Hstep. cbn [bind].
    set (v' := pymax (nadd (nth k z NaN) (Fin (-1))) (Fin 0)).
    destruct (list_set_total z (k + 1) v') as (z1 & Hz1 & _); [lia|].
    rewrite Hz1.
    destruct (list_set_nth z z1 (k + 1) v' NaN Hz1) as (Hlen1 & Hnth1).
    assert (Hdone1 : forall i, i < k + 1 ->
              nth (i + 1) z1 NaN
              = pymax (nadd (nth i z1 NaN) (Fin (-1))) (Fin 0)).
    { intros i Hi. rewrite !Hnth1.
      destruct (Nat.eqb_spec i (k + 1)) as [Hbad|_]; [lia|].
      destruct (Nat.eqb_spec (i + 1) (k + 1)) as [E|Hne].
      - assert (i = k) by lia. subst i. reflexivity.
      - apply Hdone. lia. }
    assert (H0 : nth 0 z1 NaN = nth 0 z NaN).
    { rewrite Hnth1. destruct (Nat.eqb_spec 0 (k + 1)); [lia | reflexivity]. }
    assert (Hrest1 : forall i, k + 1 < i < n -> nth i z1 NaN = Fin 0).
    { intros i Hi. rewrite Hnth1.
      destruct (Nat.eqb_spec i (k + 1)); [lia|]. apply Hrest. lia. }
    destruct (nltb (nsub v' (Fin 0)) tiny) eqn:Ebreak.
    + exists z1. split; [reflexivity|]. split; [congruence|]. split; [exact H0|].
      intros i Hi. destruct (Nat.lt_ge_cases i (k + 1)) as [Hlt|Hge].
      * apply Hdone1. exact Hlt.
      * rewrite (Hrest1 (i + 1)) by lia.
        destruct (Nat.eq_dec i (k + 1)) as [->|Hne].
        -- rewrite Hnth1, Nat.eqb_refl.
           apply nltb_Fin in Ebreak.
           destruct Ebreak as (x & y & Ex & Ey & Hxy).
           destruct v' as [|q]; [discriminate Ex|].
           injection Ex as <-. injection Ey as <-.
           unfold pymax, ngtb. cbn [nadd lift2 nltb cmp2].
           assert (E : Qlt_bool (q + -1) 0 = true).
           { apply Qlt_bool_iff.
             assert (Htiny : (1 # 10000000000000 < 1)%Q) by reflexivity.
             lra. }
           rewrite E. reflexivity.
        -- rewrite (Hrest1 i) by lia. reflexivity.
    + replace (S k) with (k + 1) by lia.
      destruct (IH (k + 1) z1) as (z' & Hloop & Hlen' & H0' & Hall);
        [lia | congruence | exact Hn | exact Hrest1 | exact Hdone1 |].
      exists z'. split; [exact Hloop|]. split; [exact Hlen'|].
      split; [congruence | exact Hall].
Qed.

(** X11.  With the default steps, [compute_rul_line(rul, n)] raises
    [IndexError] for [n = 0] and otherwise returns [n] values: [rul]
    itself, then each value from the one before it,
    [z[i+1] = max(z[i] + (-1), 0)].  The early exit of the loop changes
    nothing: the entries it skips are the zeros the recurrence gives.  No
    entry after the first is negative. *)
Theorem compute_rul_line_default (rul : num) (n : nat) :
  compute_rul_line rul 0 None = Raise IndexError
  /\ (0 < n ->
      exists z,
        compute_rul_line rul n None = Ok z
        /\ length z = n
        /\ nth 0 z NaN = rul
        /\ (forall i, i + 1 < n ->
              nth (i + 1) z NaN
              = pymax (nadd (nth i z NaN) (Fin (-1))) (Fin 0))
        /\ forall i, 1 <= i < n -> nltb (nth i z NaN) (Fin 0) = false).
Proof.
  split; [reflexivity|]. intros Hn. unfold compute_rul_line.
  destruct (list_set_total (zeros n) 0 rul) as (z0 & Hz0 & _);
    [rewrite zeros_length; exact Hn|].
  rewrite Hz0.
  destruct (list_set_nth (zeros n) z0 0 rul NaN Hz0) as (Hlen0 & Hnth0).
  rewrite zeros_length in Hlen0. rewrite repeat_length.
  destruct (rul_line_loop_steps n (n - 1) 0 z0) as (z & Hloop & Hlen & H0 & Hall).
  - lia.
  - exact Hlen0.
  - exact Hn.
  - intros i Hi. rewrite Hnth0. destruct (Nat.eqb_spec i 0); [lia|].
    unfold zeros. apply nth_repeat_lt. lia.
  - intros i Hi. lia.
  - exists z. split; [exact Hloop|]. split; [exact Hlen|].
    split; [rewrite H0, Hnth0; reflexivity|]. split; [exact Hall|].
    intros i Hi. replace i with (i - 1 + 1) by lia.
    rewrite Hall by lia. unfold pymax, ngtb.
    destruct (nltb (nadd (nth (i - 1) z NaN) (Fin (-1))) (Fin 0)) eqn:E;
      [reflexivity | exact E].
Qed.

(** From [5/2]: [5/2], [3/2], [1/2], then zero. *)
Lemma compute_rul_line_default_example :
  exists z,
    compute_rul_line (Fin (5 # 2)) 6 None = Ok z
    /\ length z = 6
    /\ nth 0 z NaN = Fin (5 # 2)
    /\ (forall i, i + 1 < 6 ->
          nth (i + 1) z NaN
          = pymax (nadd (nth i z NaN) (Fin (-1))) (Fin 0))
    /\ forall i, 1 <= i < 6 -> nltb (nth i z NaN) (Fin 0) = false.
Proof.
  apply (proj2 (compute_rul_line_default (Fin (5 # 2)) 6)). lia.
Defined.

(** ** Bin edges shared by the models *)

(** With explicit edges the object keeps them, counts one bin per pair of
    consecutive edges and one fold per list of true values. *)
Lemma CVResults_init_edges (y_true y_pred : list (list num)) (nbins : nat)
    (e : list num) (cv : CVResults) :
  CVResults_init y_true y_pred nbins (Some e) = Ok cv ->
  bin_edges cv = e /\ n_bins cv = length e - 1 /\ n_folds cv = length y_true.
Proof.
  intros Hinit. unfold CVResults_init in Hinit. cbn [bind] in Hinit.
  destruct e as [|e0 E]; [discriminate|].
  unfold enumerate in Hinit. apply add_folds_Ok in Hinit.
  cbv zeta in Hinit. cbn [bin_edges n_bins n_folds errors] in Hinit.
  destruct Hinit as (He & Hb & Hf & _). repeat split; assumption.
Qed.

(** X12.  [models_cv_results] bins every model on the same edges: the
    [nbins + 1] points of [np.linspace(0, max, nbins + 1)] for the largest
    true value of all folds of all models.  The returned dictionary has the
    models of the input, in order, each with [nbins] bins and one row per
    fold. *)
Theorem models_cv_results_shared_edges (rd : results_dictionary) (nbins : nat)
    (edges : list num) (model_results : list (string * CVResults)) :
  models_cv_results rd nbins = Ok (edges, model_results) ->
  (exists maxima max_y_value,
      mapM (fun r => np_max (r_true r)) (flat_map snd rd) = Ok maxima
      /\ np_max maxima = Ok max_y_value
      /\ edges = linspace (Fin 0) max_y_value (nbins + 1))
  /\ length edges = nbins + 1
  /\ Forall2 (fun entry result =>
                fst result = fst entry
                /\ bin_edges (snd result) = edges
                /\ n_bins (snd result) = nbins
                /\ n_folds (snd result) = length (snd entry))
             rd model_results.
Proof.
  unfold models_cv_results. intros Hm.
  apply bind_Ok in Hm. destruct Hm as (maxima & Hmaxima & Hm).
  apply bind_Ok in Hm. destruct Hm as (M & HM & Hm).
  apply bind_Ok in Hm. destruct Hm as (mr & Hmr & [= <- <-]).
  split; [exists maxima, M; repeat split; assumption|].
  split; [apply linspace_length|].
  apply mapM_Ok_Forall2 in Hmr. clear Hmaxima.
  induction Hmr as [|entry result rd' mr' Hentry _ IH]; [constructor|].
  constructor; [|exact IH].
  apply bind_Ok in Hentry. destruct Hentry as (cv & Hcv & [= <-]).
  apply CVResults_init_edges in Hcv. destruct Hcv as (He & Hb & Hf).
  cbn [fst snd]. rewrite He, Hb, Hf, linspace_length, length_map.
  repeat split. lia.
Qed.

Lemma models_cv_results_shared_edges_example :
  exists edges cva cvb,
    models_cv_results example_results 4
    = Ok (edges, [("a"%string, cva); ("b"%string, cvb)])
    /\ edges = linspace (Fin 0) (Fin 8) 5
    /\ bin_edges cva = edges /\ bin_edges cvb = edges
    /\ n_bins cva = 4 /\ n_bins cvb = 4.
Proof.
  do 3 eexists. split; [reflexivity|].
  destruct (models_cv_results_shared_edges example_results 4 _ _ eq_refl)
    as (_ & _ & Hall).
  inversion Hall as [|? ? ? ? (_ & Hea & Hba & _) Hall']; subst.
  inversion Hall' as [|? ? ? ? (_ & Heb & Hbb & _) _]; subst.
  cbn [snd] in *. repeat split; assumption.
Defined.

(** ** Rewriting the results in place *)

Lemma heap_set_same (h : heap) (a : nat) (r : fold_result) :
  heap_set h a r a = r.
Proof. unfold heap_set. rewrite Nat.eqb_refl. reflexivity. Qed.

Lemma heap_set_other (h : heap) (a b : nat) (r : fold_result) :
  b <> a -> heap_set h a r b = h b.
Proof.
  intros Hne. unfold heap_set.
  destruct (Nat.eqb_spec b a); [contradiction | reflexivity].
Qed.

(** One visit of the record [a]. *)
Lemma transform_records_cons (f : list num -> result (list num)) (a : nat)
    (rest : list nat) (h : heap) :
  transform_records f (a :: rest) h
  = match f (r_true (h a)) with
    | Raise e => (h, Raise e)
    | Ok t =>
        match f (r_predicted (h a)) with
        | Raise e => (heap_set h a (mkfold t (r_predicted (h a))), Raise e)
        | Ok p =>
            transform_records f rest
              (heap_set (heap_set h a (mkfold t (r_predicted (h a)))) a
                        (mkfold t p))
        end
    end.
Proof.
  cbn [transform_records]. destruct (f (r_true (h a))) as [t|e]; [|reflexivity].
  cbv zeta. rewrite heap_set_same. reflexivity.
Qed.

Lemma transform_records_app (f : list num -> result (list num))
    (r1 r2 : list nat) (h : heap) :
  transform_records f (r1 ++ r2) h
  = match transform_records f r1 h with
    | (h', Raise e) => (h', Raise e)
    | (h', Ok _) => transform_records f r2 h'
    end.
Proof.
  revert h; induction r1 as [|a r1 IH]; intros h; [reflexivity|].
  rewrite <- app_comm_cons, !transform_records_cons.
  destruct (f (r_true (h a))) as [t|e]; [|reflexivity].
  destruct (f (r_predicted (h a))) as [p|e]; [|reflexivity].
  apply IH.
Qed.

(** The two loops visit the records of [visits], one after the other. *)
Lemma transform_results_visits (f : list num -> result (list num))
    (rd : results_refs) (h : heap) :
  transform_results rd f h = transform_records f (visits rd) h.
Proof.
  revert h; induction rd as [|(name, records) rd IH]; intros h; [reflexivity|].
  cbn [transform_results visits flat_map snd]. fold (visits rd).
  rewrite transform_records_app.
  destruct (transform_records f records h) as (h', [u|e]);
    [apply IH | reflexivity].
Qed.

(** A record that is not visited is not touched. *)
Lemma transform_records_frame (f : list num -> result (list num))
    (records : list nat) (h h' : heap) (out : result unit) (a : nat) :
  transform_records f records h = (h', out) ->
  ~ In a records -> h' a = h a.
Proof.
  revert h; induction records as [|a0 rest IH]; intros h Hrun Hout.
  - injection Hrun as <- _. reflexivity.
  - assert (Hne : a <> a0) by (intros ->; apply Hout; left; reflexivity).
    assert (Hrest : ~ In a rest) by (intros Hin; apply Hout; right; exact Hin).
    rewrite transform_records_cons in Hrun.
    destruct (f (r_true (h a0))) as [t|e]; [|injection Hrun as <- _; reflexivity].
    destruct (f (r_predicted (h a0))) as [p|e].
    + rewrite (IH _ Hrun Hrest), !heap_set_other by exact Hne. reflexivity.
    + injection Hrun as <- _. apply heap_set_other. exact Hne.
Qed.

(** When every visit succeeds, each array has been rewritten once per visit
    of its record. *)
Lemma transform_records_count (f : list num -> result (list num))
    (records : list nat) (h h' : heap) (u : unit) (a : nat) :
  transform_records f records h = (h', Ok u) ->
  iterate_result f (count_occ Nat.eq_dec records a) (r_true (h a))
  = Ok (r_true (h' a))
  /\ iterate_result f (count_occ Nat.eq_dec records a) (r_predicted (h a))
     = Ok (r_predicted (h' a)).
Proof.
  revert h; induction records as [|a0 rest IH]; intros h Hrun.
  - injection Hrun as <-. split; reflexivity.
  - rewrite transform_records_cons in Hrun.
    destruct (f (r_true (h a0))) as [t|e] eqn:Et; [|discriminate Hrun].
    destruct (f (r_predicted (h a0))) as [p|e] eqn:Ep; [|discriminate Hrun].
    destruct (IH _ Hrun) as (IHt & IHp).
    cbn [count_occ]. destruct (Nat.eq_dec a0 a) as [->|Hne].
    + rewrite heap_set_same in IHt, IHp. cbn [r_true r_predicted] in IHt, IHp.
      cbn [iterate_result]. rewrite Et, Ep. cbn [bind].
      split; assumption.
    + rewrite !heap_set_other in IHt, IHp by congruence.
      split; assumption.
Qed.

Lemma arrays_ext (h1 h2 : heap) (records : list nat) :
  (forall a, In a records -> h1 a = h2 a) ->
  arrays h1 records = arrays h2 records.
Proof.
  induction records as [|a rest IH]; intros Hsame; [reflexivity|].
  cbn [arrays flat_map]. fold (arrays h1 rest). fold (arrays h2 rest).
  rewrite (Hsame a) by (left; reflexivity).
  rewrite IH by (intros b Hb; apply Hsame; right; exact Hb).
  reflexivity.
Qed.

(** On records that are all distinct the arrays are rewritten one after the
    other, up to the first exception. *)
Lemma transform_records_prefix (f : list num -> result (list num))
    (records : list nat) (h h' : heap) (out : result unit) :
  NoDup records ->
  transform_records f records h = (h', out) ->
  exists k,
    mapM f (firstn k (arrays h records)) = Ok (firstn k (arrays h' records))
    /\ skipn k (arrays h' records) = skipn k (arrays h records)
    /\ match out with
       | Ok _ => k = length (arrays h records)
       | Raise e =>
           exists x, nth_error (arrays h records) k = Some x /\ f x = Raise e
       end.
Proof.
  revert h; induction records as [|a rest IH]; intros h Hnd Hrun.
  - injection Hrun as <- <-. exists 0. repeat split.
  - inversion Hnd as [|? ? Hnotin Hnd']; subst.
    rewrite transform_records_cons in Hrun.
    cbn [arrays flat_map app]. fold (arrays h rest). fold (arrays h' rest).
    destruct (f (r_true (h a))) as [t|e] eqn:Et.
    2:{ injection Hrun as <- <-. exists 0. repeat split.
        exists (r_true (h a)). split; [reflexivity | exact Et]. }
    destruct (f (r_predicted (h a))) as [p|e] eqn:Ep.
    2:{ injection Hrun as <- <-. exists 1.
        rewrite heap_set_same. cbn [r_true r_predicted firstn skipn mapM].
        rewrite Et. cbn [bind].
        rewrite (arrays_ext (heap_set h a (mkfold t (r_predicted (h a)))) h rest).
        - repeat split. exists (r_predicted (h a)).
          split; [reflexivity | exact Ep].
        - intros b Hb. apply heap_set_other. intros ->. contradiction. }
    set (h2 := heap_set (heap_set h a (mkfold t (r_predicted (h a)))) a
                        (mkfold t p)) in *.
    assert (Hh2 : arrays h2 rest = arrays h rest).
    { apply arrays_ext. intros b Hb. unfold h2.
      rewrite !heap_set_other by (intros ->; contradiction). reflexivity. }
    assert (Ha : h' a = mkfold t p).
    { rewrite (transform_records_frame _ _ _ _ _ _ Hrun Hnotin).
      unfold h2. apply heap_set_same. }
    destruct (IH h2 Hnd' Hrun) as (k & Hpre & Hsuf & Hout).
    rewrite Hh2 in Hpre, Hsuf, Hout.
    exists (S (S k)). rewrite Ha. cbn [r_true r_predicted firstn skipn mapM].
    rewrite Et, Ep, Hpre. cbn [bind length].
    split; [reflexivity|]. split; [exact Hsuf|].
    destruct out as [u|e]; [congruence | exact Hout].
Qed.

(** X13.  [transform_results] rewrites the records in place, in the order
    of the dictionary, the true values of a record before its predictions.
    A record that no model lists is left as it is.  When no call of the
    transformation raises, each array has been rewritten once per visit of
    its record: twice for a record that two models share.  When the records
    listed are all distinct, the arrays before some position are replaced
    by their images and the others are untouched: the position is the end
    on success and otherwise the array on which the transformation raised,
    so the rewriting is not undone by an exception. *)
Theorem transform_results_in_place (rd : results_refs)
    (transformation : list num -> result (list num)) (h h' : heap)
    (out : result unit) :
  transform_results rd transformation h = (h', out) ->
  (forall a, ~ In a (visits rd) -> h' a = h a)
  /\ (out = Ok tt ->
      forall a,
        iterate_result transformation
          (count_occ Nat.eq_dec (visits rd) a) (r_true (h a))
        = Ok (r_true (h' a))
        /\ iterate_result transformation
             (count_occ Nat.eq_dec (visits rd) a) (r_predicted (h a))
           = Ok (r_predicted (h' a)))
  /\ (NoDup (visits rd) ->
      exists k,
        mapM transformation (firstn k (arrays h (visits rd)))
        = Ok (firstn k (arrays h' (visits rd)))
        /\ skipn k (arrays h' (visits rd)) = skipn k (arrays h (visits rd))
        /\ match out with
           | Ok _ => k = length (arrays h (visits rd))
           | Raise e =>
               exists x, nth_error (arrays h (visits rd)) k = Some x
                         /\ transformation x = Raise e
           end).
Proof.
  rewrite transform_results_visits. intros Hrun. split; [|split].
  - intros a Ha. exact (transform_records_frame _ _ _ _ _ _ Hrun Ha).
  - intros -> a. exact (transform_records_count _ _ _ _ _ a Hrun).
  - intros Hnd. exact (transform_records_prefix _ _ _ _ _ Hnd Hrun).
Qed.

(** Two models that share their fold record: the arrays of the record are
    rewritten twice, and the record that is not listed is untouched. *)
Lemma transform_results_in_place_example :
  exists h',
    transform_results [("a"%string, [0]); ("b"%string, [0])]
      (fun x => Ok (map (nadd (Fin 1)) x)) example_heap = (h', Ok tt)
    /\ h' 1 = example_heap 1
    /\ iterate_result (fun x => Ok (map (nadd (Fin 1)) x)) 2
         (r_true (example_heap 0)) = Ok (r_true (h' 0))
    /\ r_true (h' 0) = ints [2; 3; 4; 5; 6]%Z
    /\ r_predicted (h' 0) = ints [3; 3; 3; 3; 3]%Z.
Proof.
  eexists. split; [reflexivity|].
  destruct (transform_results_in_place
              [("a"%string, [0]); ("b"%string, [0])]
              (fun x => Ok (map (nadd (Fin 1)) x)) example_heap _ _ eq_refl)
    as (Hframe & Htwice & _).
  split.
  - apply Hframe. simpl. intros [H|[H|[]]]; discriminate H.
  - split; [exact (proj1 (Htwice eq_refl 0))|]. split; reflexivity.
Defined.

(** Distinct records and a transformation that rejects arrays of fewer than
    three samples: the first record is rewritten, the second is left as it
    was. *)
Example transform_results_partial :
  let '(h', out) :=
    transform_results [("a"%string, [0]); ("b"%string, [1])]
      (fun x => if length x <=? 2 then Raise ValueError
                else Ok (map (nadd (Fin 1)) x)) example_heap in
  out = Raise ValueError
  /\ h' 0 = mkfold (ints [1; 2; 3; 4; 5]%Z) (ints [2; 2; 2; 2; 2]%Z)
  /\ h' 1 = example_heap 1.
Proof. repeat split. Qed.

(** ** The samples that belong to a life *)

(** Between the smallest and the largest element of an ascending list, what
    is not an element lies strictly between two consecutive ones. *)
Lemma consecutive_cover (l : list nat) (k : nat) :
  ascending l -> ~ In k l ->
  (exists x, In x l /\ x < k) -> (exists z, In z l /\ k < z) ->
  exists a b, In (a, b) (consecutive l) /\ a < k < b.
Proof.
  induction l as [|x [|z l] IH]; intros Hasc Hout (lo & Hlo & Hlt) (hi & Hhi & Hgt).
  - destruct Hlo.
  - destruct Hlo as [<-|[]]. destruct Hhi as [<-|[]]. lia.
  - destruct Hasc as (Hx & Hasc).
    change (consecutive (x :: z :: l)) with ((x, z) :: consecutive (z :: l)).
    assert (Hxz : x <= z) by (inversion Hx; assumption).
    destruct (Nat.lt_ge_cases k z) as [Hkz|Hkz].
    + exists x, z. split; [left; reflexivity|]. split; [|exact Hkz].
      destruct Hlo as [<-|Hlo]; [exact Hlt|].
      destruct Hasc as (Hz & _).
      destruct Hlo as [<-|Hlo]; [lia|].
      pose proof (proj1 (Forall_forall _ _) Hz lo Hlo). lia.
    + assert (Hne : k <> z) by (intros ->; apply Hout; right; left; reflexivity).
      destruct IH as (a & b & Hab & Hk).
      * exact Hasc.
      * intros Hin. apply Hout. right. exact Hin.
      * exists z. split; [left; reflexivity | lia].
      * exists hi. split; [|exact Hgt].
        destruct Hhi as [<-|Hhi]; [lia | exact Hhi].
      * exists a, b. split; [right; exact Hab | exact Hk].
Qed.

(** Two consecutive pairs of an ascending list that enclose the same number
    are the same pair. *)
Lemma consecutive_unique (l : list nat) (a1 b1 a2 b2 k : nat) :
  ascending l ->
  In (a1, b1) (consecutive l) -> In (a2, b2) (consecutive l) ->
  a1 < k < b1 -> a2 < k < b2 -> a1 = a2 /\ b1 = b2.
Proof.
  induction l as [|x [|z l] IH]; intros Hasc H1 H2 Hk1 Hk2;
    try (destruct H1; fail).
  destruct Hasc as (Hx & Hasc).
  change (consecutive (x :: z :: l)) with ((x, z) :: consecutive (z :: l)) in H1, H2.
  assert (Htail : forall a b, In (a, b) (consecutive (z :: l)) -> z <= a).
  { intros a b Hab. unfold consecutive in Hab. apply in_combine_l in Hab.
    destruct Hasc as (Hz & _).
    destruct Hab as [<-|Hab]; [lia|].
    apply (proj1 (Forall_forall _ _) Hz a Hab). }
  destruct H1 as [[= -> ->]|H1], H2 as [[= -> ->]|H2].
  - split; reflexivity.
  - apply Htail in H2. lia.
  - apply Htail in H1. lia.
  - exact (IH Hasc H1 H2 Hk1 Hk2).
Qed.

Lemma boundaries_In (y : list num) (k : nat) :
  In k (boundaries y) <->
  ngtb (nsub (nth (S k) y NaN) (nth k y NaN)) (Fin 0) = true.
Proof.
  unfold boundaries. rewrite filter_In, in_seq. split; [tauto|].
  intros Hk. split; [|exact Hk].
  destruct (Nat.lt_ge_cases (S k) (length y)) as [Hlt|Hge]; [lia|].
  rewrite (nth_overflow y NaN Hge) in Hk. discriminate Hk.
Qed.

Lemma life_ranges_In (y : list num) (r : range) :
  In r (life_ranges y) <->
  In (start r - 1, stop r) (consecutive (breakpoints y))
  /\ 0 < start r < stop r.
Proof.
  unfold life_ranges. rewrite filter_In, in_map_iff, negb_true_iff, Nat.eqb_neq.
  unfold range_len. split.
  - intros (((a & b) & <- & Hab) & Hne). cbn [start stop fst snd] in *.
    replace (a + 1 - 1) with a by lia. split; [exact Hab | lia].
  - intros (Hab & Hr). split; [|lia].
    exists (start r - 1, stop r). split; [|exact Hab].
    cbn [fst snd]. destruct r as [s e]. cbn [start stop] in *.
    f_equal. lia.
Qed.

(** X14.  On a sequence of any length but one, [split_lives_indices]
    returns ranges, none of them empty, that hold each index at most once;
    sample [k] belongs to a range exactly when it is not the first sample of
    the sequence and the sample after it is not larger.  So the first
    sample of the sequence and the last sample of every life but the last
    one belong to no life. *)
Theorem split_lives_indices_partition (y_true : list num) :
  length y_true <> 1 ->
  exists ranges,
    split_lives_indices y_true = Ok ranges
    /\ Forall (fun r => 0 < range_len r) ranges
    /\ (forall k,
          (exists r, In r ranges /\ In k (range_indices r)) <->
          (0 < k < length y_true
           /\ ngtb (nsub (nth (S k) y_true NaN) (nth k y_true NaN)) (Fin 0)
              = false))
    /\ (forall r1 r2 k,
          In r1 ranges -> In r2 ranges ->
          In k (range_indices r1) -> In k (range_indices r2) -> r1 = r2).
Proof.
  intros Hlen. exists (life_ranges y_true).
  pose proof (split_lives_indices_ranges y_true Hlen) as Hs.
  split; [exact Hs|]. split; [|split].
  - apply Forall_forall. intros r Hr.
    exact (split_lives_indices_nonempty y_true _ r Hs Hr).
  - intros k. split.
    + intros (r & Hr & Hk).
      destruct (life_ranges_skip_breakpoints y_true r k Hr Hk) as (H0 & Hb & Hlt).
      split; [lia|]. rewrite boundaries_In in Hb.
      destruct (ngtb _ _); [congruence | reflexivity].
    + intros (Hk & Hb).
      destruct (consecutive_cover (breakpoints y_true) k) as (a & b & Hab & Hin).
      * apply breakpoints_ascending.
      * unfold breakpoints. intros [H0|Hin]; [lia|].
        apply in_app_or in Hin. destruct Hin as [Hin|[Hl|[]]]; [|lia].
        apply boundaries_In in Hin. congruence.
      * exists 0. split; [left; reflexivity | lia].
      * exists (length y_true). split; [|lia].
        unfold breakpoints. right. apply in_or_app. right. left. reflexivity.
      * exists (mkrange (a + 1) b). split.
        -- apply life_ranges_In. cbn [start stop].
           replace (a + 1 - 1) with a by lia. split; [exact Hab | lia].
        -- unfold range_indices, range_len. cbn [start stop].
           apply in_seq. lia.
  - intros r1 r2 k Hr1 Hr2 Hk1 Hk2.
    apply life_ranges_In in Hr1, Hr2.
    destruct Hr1 as (Hab1 & Hpos1), Hr2 as (Hab2 & Hpos2).
    unfold range_indices, range_len in Hk1, Hk2.
    apply in_seq in Hk1, Hk2.
    destruct (consecutive_unique (breakpoints y_true)
                (start r1 - 1) (stop r1) (start r2 - 1) (stop r2) k
                (breakpoints_ascending y_true) Hab1 Hab2) as (Ea & Eb);
      [lia | lia |].
    destruct r1 as [s1 e1], r2 as [s2 e2]. cbn [start stop] in *.
    f_equal; lia.
Qed.

(** The sequence [3 2 1 5 4 3 2 1]: the first life keeps sample [1] only,
    the second life all of its samples. *)
Lemma split_lives_indices_partition_example :
  exists ranges,
    split_lives_indices example_signal = Ok ranges
    /\ Forall (fun r => 0 < range_len r) ranges
    /\ (forall k,
          (exists r, In r ranges /\ In k (range_indices r)) <->
          (0 < k < length example_signal
           /\ ngtb (nsub (nth (S k) example_signal NaN) (nth k example_signal NaN))
                   (Fin 0) = false))
    /\ (forall r1 r2 k,
          In r1 ranges -> In r2 ranges ->
          In k (range_indices r1) -> In k (range_indices r2) -> r1 = r2).
Proof.
  apply (split_lives_indices_partition example_signal). discriminate.
Defined.

(** ** Splitting with an integer [time] *)

Section IntegerTime.
Context `{Fitter}.

(** With an integer [time] the constructor returns no life. *)
Lemma constructor_rejects_integer_time (yt yp : list num) (t : Z) (flag : bool)
    (thr : option num) (life : FittedLife) :
  FittedLife_init yt yp (Some (TimeInt t)) flag thr <> Ok life.
Proof.
  assert (E : exists e, FittedLife_init yt yp (Some (TimeInt t)) flag thr = Raise e)
    by (destruct yt as [|a [|b yt]]; eexists; reflexivity).
  destruct E as (e & E). rewrite E. discriminate.
Qed.

(** X15.  [split_lives] hands its [time] to the constructor of every life,
    and the constructor raises on an integer.  So with an integer [time]
    the function returns only when it has no life to build, every detected
    range holding a [nan] among its predictions, and the list it returns is
    empty. *)
Theorem split_lives_integer_time (y_true y_pred : list num) (thr : option num)
    (flag : bool) (t : Z) (lives : list FittedLife) :
  split_lives y_true y_pred thr flag (Some (TimeInt t)) = Ok lives ->
  lives = []
  /\ exists ranges,
       split_lives_indices y_true = Ok ranges
       /\ Forall (fun r => has_nan y_pred r = true) ranges.
Proof.
  intros Hs. apply split_lives_Ok in Hs. destruct Hs as (ranges & Hranges & Hall).
  assert (Hnone : filter (fun r => negb (has_nan y_pred r)) ranges = []).
  { destruct (filter (fun r => negb (has_nan y_pred r)) ranges) as [|r rs];
      [reflexivity|].
    inversion Hall as [|? life ? ? Hbuilt _]; subst.
    destruct Hbuilt as (yt & yp & _ & _ & _ & Hinit).
    destruct (constructor_rejects_integer_time _ _ _ _ _ _ Hinit). }
  rewrite Hnone in Hall. inversion Hall; subst.
  split; [reflexivity|]. exists ranges. split; [exact Hranges|].
  apply Forall_forall. intros r Hr.
  destruct (has_nan y_pred r) eqn:Enan; [reflexivity|].
  assert (Hin : In r (filter (fun r => negb (has_nan y_pred r)) ranges))
    by (apply filter_In; split; [exact Hr | rewrite Enan; reflexivity]).
  rewrite Hnone in Hin. destruct Hin.
Qed.

End IntegerTime.

(** One life whose predictions hold a [nan]: nothing is built, and the
    integer is never looked at. *)
Lemma split_lives_integer_time_example :
  @split_lives trivial_fitter (ints [3; 2; 1; 0]%Z)
    [Fin 3; NaN; Fin 1; Fin 0] None false (Some (TimeInt 5)) = Ok []
  /\ ([] : list (@FittedLife trivial_fitter)) = []
  /\ exists ranges,
       split_lives_indices (ints [3; 2; 1; 0]%Z) = Ok ranges
       /\ Forall (fun r => has_nan [Fin 3; NaN; Fin 1; Fin 0] r = true) ranges.
Proof.
  split; [reflexivity|].
  apply (@split_lives_integer_time trivial_fitter (ints [3; 2; 1; 0]%Z)
           [Fin 3; NaN; Fin 1; Fin 0] None false 5 []).
  reflexivity.
Defined.

(** ** The constructor of the binned errors: edges and unmatched folds *)

Lemma mapM_np_max_empty (y_true : list (list num)) :
  In [] y_true -> mapM np_max y_true = Raise ValueError.
Proof.
  induction y_true as [|y rest IH]; intros Hin; [destruct Hin|].
  destruct y as [|x y]; [reflexivity|].
  destruct Hin as [Hin|Hin]; [discriminate Hin|].
  cbn [mapM np_max bind]. rewrite (IH Hin). reflexivity.
Qed.

(** X16.  Without bin edges the constructor takes the largest true value
    as the last edge; with no fold at all, or with a fold that has no
    sample, there is no such value and the constructor raises
    [ValueError], whatever the predictions and the number of bins. *)
Theorem CVResults_init_no_maximum (y_true y_pred : list (list num))
    (nbins : nat) :
  y_true = [] \/ In [] y_true ->
  CVResults_init y_true y_pred nbins None = Raise ValueError.
Proof.
  intros [->|Hin]; [reflexivity|].
  unfold CVResults_init. rewrite (mapM_np_max_empty _ Hin). reflexivity.
Qed.

Lemma CVResults_init_no_maximum_example :
  CVResults_init [ints [0; 1; 2]%Z; []] [ints [1; 1; 1]%Z; []] 2 None
  = Raise ValueError.
Proof.
  apply CVResults_init_no_maximum. right. right. left. reflexivity.
Defined.

(** X17.  The number of folds is that of the true values, the loop runs
    over the pairs of predictions and true values.  With fewer folds of
    predictions the matrices keep a row for every fold of true values, and
    the rows of the folds without predictions stay at zero. *)
Theorem CVResults_init_unmatched_folds (y_true y_pred : list (list num))
    (nbins : nat) (edges : option (list num)) (cv : CVResults) :
  CVResults_init y_true y_pred nbins edges = Ok cv ->
  n_folds cv = length y_true
  /\ forall i j,
       length y_pred <= i < length y_true -> j < n_bins cv ->
       stats_at cv i j = (Some (Fin 0), Some (Fin 0), Some (Fin 0)).
Proof.
  intros Hinit. unfold CVResults_init in Hinit.
  apply bind_Ok in Hinit. destruct Hinit as (E & _ & Hinit).
  destruct E as [|e0 E]; [discriminate|].
  unfold enumerate in Hinit. apply add_folds_Ok in Hinit.
  cbv zeta in Hinit. cbn [bin_edges n_bins n_folds errors] in Hinit.
  destruct Hinit as (He & Hb & Hf & Herr & Hstats).
  split; [exact Hf|].
  intros i j Hi Hj. rewrite Hb in Hj.
  rewrite Hstats. cbn [Nat.leb]. rewrite Nat.sub_0_r.
  assert (Hnone : nth_error (combine y_pred y_true) i = None).
  { apply nth_error_None. rewrite length_combine. lia. }
  rewrite Hnone. unfold stats_at. cbn [mean_error mae mse].
  rewrite !(entry_zeros2 _ _ i j) by lia. reflexivity.
Qed.

(** Two folds of true values, one fold of predictions. *)
Lemma CVResults_init_unmatched_folds_example :
  exists cv,
    CVResults_init example_folds_true [ints [1; 1; 1; 1; 1]%Z] 2 None = Ok cv
    /\ n_folds cv = 2
    /\ stats_at cv 1 1 = (Some (Fin 0), Some (Fin 0), Some (Fin 0)).
Proof.
  eexists. split; [reflexivity|].
  destruct (CVResults_init_unmatched_folds example_folds_true
              [ints [1; 1; 1; 1; 1]%Z] 2 None _ eq_refl) as (Hn & Hz).
  split; [exact Hn|]. apply Hz; simpl; lia.
Defined.

(** ** The time axis of a censored life *)

Lemma where_from_head (mask : list bool) (i0 i : nat) (w : list nat) :
  where_from i0 mask = i :: w ->
  i0 <= i
  /\ nth (i - i0) mask false = true
  /\ forall k, k < i - i0 -> nth k mask false = false.
Proof.
  revert i0; induction mask as [|b mask IH]; intros i0 Hw; [discriminate|].
  cbn [where_from] in Hw. destruct b.
  - injection Hw as <- _. rewrite Nat.sub_diag.
    split; [lia|]. split; [reflexivity|]. intros k Hk. lia.
  - apply IH in Hw. destruct Hw as (Hle & Hat & Hbefore).
    split; [lia|].
    replace (i - i0) with (S (i - S i0)) by lia.
    split; [exact Hat|].
    intros [|k] Hk; [reflexivity|]. apply Hbefore. lia.
Qed.

(** With a threshold, a positive [degrading_start] is the first index whose
    sample is below the threshold. *)
Lemma _degrading_start_first_below (l : list num) (thr : num) :
  0 < _degrading_start (Arr1 l) (Some thr) ->
  nltb (nth (_degrading_start (Arr1 l) (Some thr)) l NaN) thr = true
  /\ forall i, i < _degrading_start (Arr1 l) (Some thr) ->
               nltb (nth i l NaN) thr = false.
Proof.
  unfold _degrading_start. cbn [nd_where]. unfold np_where.
  destruct (where_from 0 (map (fun y => nltb y thr) l)) as [|i w] eqn:Ew;
    [lia|].
  intros _. apply where_from_head in Ew.
  destruct Ew as (_ & Hat & Hbefore). rewrite Nat.sub_0_r in Hat, Hbefore.
  change false with ((fun y => nltb y thr) NaN) in Hat, Hbefore.
  rewrite map_nth in Hat. split; [exact Hat|].
  intros k Hk. specialize (Hbefore k Hk). rewrite map_nth in Hbefore.
  exact Hbefore.
Qed.

(** X18.  When a threshold censors the start of a life, [degrading_start]
    is the first index whose sample is below the threshold, and the time
    axis, one entry per sample, runs over the censored part in equal steps:
    it starts at the step and each entry up to [degrading_start] is the one
    before it plus the step.  The step is the median of the differences of
    the reversed samples from [degrading_start] on, or [1] when there is
    no such difference. *)
Theorem compute_time_feature_censored_prefix (l : list num) (thr : num)
    (ds : nat) (time : list num) :
  compute_time_feature (Arr1 l) (Some thr) = Ok (ds, time) ->
  0 < ds ->
  let step := prefix_step (diff (rev (skipn ds l))) in
  nltb (nth ds l NaN) thr = true
  /\ (forall i, i < ds -> nltb (nth i l NaN) thr = false)
  /\ length time = length l
  /\ nth 0 time NaN = step
  /\ forall i, i < ds -> nth (i + 1) time NaN = nadd (nth i time NaN) step.
Proof.
  intros Hc Hds step.
  pose proof (compute_time_feature_length _ _ _ _ Hc) as (Hlen & Eds).
  pose proof (compute_time_feature_censored l thr ds time Hc Hds) as Htime.
  cbv zeta in Htime. fold step in Htime.
  assert (Hfirst := _degrading_start_first_below l thr).
  rewrite <- Eds in Hfirst. destruct (Hfirst Hds) as (Hat & Hbefore).
  split; [exact Hat|]. split; [exact Hbefore|]. split; [exact Hlen|].
  rewrite Htime, Nat.add_1_r. cbn [repeat app cumsum].
  split; [reflexivity|].
  intros i Hi. rewrite Nat.add_1_r, cumsum_nth_succ
    by (rewrite length_app, repeat_length; lia).
  f_equal. rewrite app_nth1 by (rewrite repeat_length; exact Hi).
  apply nth_repeat_lt. exact Hi.
Qed.

(** The life [9 9 9 7 5 4 0] with threshold [8]: the first sample below is
    sample [3], the step is [2], and the time axis starts [2 4 6 8]. *)
Lemma compute_time_feature_censored_prefix_example :
  compute_time_feature (Arr1 (ints [9; 9; 9; 7; 5; 4; 0]%Z)) (Some (Fin 8))
  = Ok (3, ints [2; 4; 6; 8; 12; 13; 15]%Z)
  /\ nltb (nth 3 (ints [9; 9; 9; 7; 5; 4; 0]%Z) NaN) (Fin 8) = true
  /\ (forall i, i < 3 ->
                nltb (nth i (ints [9; 9; 9; 7; 5; 4; 0]%Z) NaN) (Fin 8) = false)
  /\ length (ints [2; 4; 6; 8; 12; 13; 15]%Z) = 7
  /\ nth 0 (ints [2; 4; 6; 8; 12; 13; 15]%Z) NaN
     = prefix_step (diff (rev (skipn 3 (ints [9; 9; 9; 7; 5; 4; 0]%Z))))
  /\ forall i, i < 3 ->
       nth (i + 1) (ints [2; 4; 6; 8; 12; 13; 15]%Z) NaN
       = nadd (nth i (ints [2; 4; 6; 8; 12; 13; 15]%Z) NaN)
              (prefix_step
                 (diff (rev (skipn 3 (ints [9; 9; 9; 7; 5; 4; 0]%Z))))).
Proof.
  split; [reflexivity|].
  apply (compute_time_feature_censored_prefix
           (ints [9; 9; 9; 7; 5; 4; 0]%Z) (Fin 8) 3
           (ints [2; 4; 6; 8; 12; 13; 15]%Z)); [reflexivity | lia].
Defined.
